(** * ChatWith Wiki: the query router and the ingestion chunker of [app/main.py]

    A shallow embedding of the pure string logic (normalisation, the phrase
    and substring matchers, the paragraph chunker) and of the effectful
    functions [check_and_ingest_wikipedia], [check_query_relevance],
    [summarize_search_results] and [search_documents] over an explicit world:
    the ChromaDB collection and a log of the calls made to the outside
    (scraper, vector store, LLM).
    The text cleaning of [scrape_wikipedia_page], [startup_event] and the
    document endpoints ([add_document], [get_document], [delete_document],
    [get_collection_info]) follow.

    Python [str] values are modelled as lists of code points in the range
    U+0000 .. U+00FF (type [ascii]); [lower], [upper] and [isspace] follow
    Python's tables on that range.  Module [Wide] repeats the normalisation
    and the matchers on an alphabet with six more code points, those that
    Python's case mappings connect with that range. *)

From Stdlib Require Import ZArith NArith QArith Bool Ascii String DecimalString Lia.
From Stdlib Require DecimalZ.
From stdpp Require Import gmap strings list.

Local Open Scope bool_scope.

(** ** Text: Python [str] on code points below 256 *)

Abbreviation str := (list ascii).

Module Text.

Definition lit (s : string) : str := list_ascii_of_string s.

Definition nl : ascii := ascii_of_N 10.
Definition space : ascii := ascii_of_N 32.

(** [c.isspace()]: TAB..CR, FS..US, SPACE, NEL and NBSP. *)
Definition is_space (c : ascii) : bool :=
  let n := N_of_ascii c in
  ((9 <=? n) && (n <=? 13) || (28 <=? n) && (n <=? 32)
   || (n =? 133) || (n =? 160))%N.

(** [c.lower()]: A..Z and the Latin-1 capitals (all of U+00C0..U+00DE but the
    multiplication sign) move up by 32; every other code point is fixed. *)
Definition char_lower (c : ascii) : ascii :=
  let n := N_of_ascii c in
  (if (65 <=? n) && (n <=? 90) || (192 <=? n) && (n <=? 222) && negb (n =? 215)
   then ascii_of_N (n + 32) else c)%N.

(** [c.upper()] on a..z.  The only use of [upper] in the program is the
    comparison of the reply with "YES"; no code point outside a..z upper-cases
    to a string that occurs in "YES", so the other code points are left as
    they are. *)
Definition char_upper (c : ascii) : ascii :=
  let n := N_of_ascii c in
  (if (97 <=? n) && (n <=? 122) then ascii_of_N (n - 32) else c)%N.

Definition lower (s : str) : str := map char_lower s.
Definition upper (s : str) : str := map char_upper s.

Fixpoint lstrip (s : str) : str :=
  match s with
  | [] => []
  | c :: s' => if is_space c then lstrip s' else s
  end.

Definition rstrip (s : str) : str := rev (lstrip (rev s)).

(** [s.strip()] *)
Definition strip (s : str) : str := rstrip (lstrip s).

Definition is_empty (s : str) : bool :=
  match s with [] => true | _ => false end.

(** [a == b] *)
Fixpoint str_eqb (a b : str) : bool :=
  match a, b with
  | [], [] => true
  | x :: a', y :: b' => Ascii.eqb x y && str_eqb a' b'
  | _, _ => false
  end.

(** [s.startswith(p)] *)
Fixpoint startswith (s p : str) {struct p} : bool :=
  match p, s with
  | [], _ => true
  | x :: p', y :: s' => Ascii.eqb x y && startswith s' p'
  | _ :: _, [] => false
  end.

(** [s.endswith(p)] *)
Definition endswith (s p : str) : bool := startswith (rev s) (rev p).

(** [p in s] *)
Fixpoint contains (s p : str) : bool :=
  startswith s p ||
  match s with
  | [] => false
  | _ :: s' => contains s' p
  end.

(** [x in xs] for a list of strings *)
Definition mem (x : str) (xs : list str) : bool := existsb (str_eqb x) xs.

(** [str(n)] for an [int] *)
Definition of_Z (n : Z) : str :=
  list_ascii_of_string (NilZero.string_of_int (Z.to_int n)).

Definition of_nat (n : nat) : str := of_Z (Z.of_nat n).

(** [sep.join(parts)] *)
Fixpoint join (sep : str) (parts : list str) : str :=
  match parts with
  | [] => []
  | [p] => p
  | p :: rest => p ++ sep ++ join sep rest
  end.

Definition cons_head (c : ascii) (pieces : list str) : list str :=
  match pieces with
  | p :: ps => (c :: p) :: ps
  | [] => [[c]]
  end.

(** [s.split('\n\n')]: the pieces between the non-overlapping occurrences of
    the blank-line separator, scanned from the left. *)
Fixpoint split_blank (s : str) : list str :=
  match s with
  | [] => [[]]
  | c :: s' =>
      match s' with
      | d :: s'' =>
          if Ascii.eqb c nl && Ascii.eqb d nl
          then [] :: split_blank s''
          else cons_head c (split_blank s')
      | [] => cons_head c (split_blank s')
      end
  end.

End Text.

Import Text.

(** ** The startup chunker (lines 126-142 of [check_and_ingest_wikipedia]) *)

Module Chunker.

Definition chunk_size : nat := 1000.
Definition blank : str := [nl; nl].

(** The [for paragraph in paragraphs] loop; the state is [current_chunk] and
    [chunks]. *)
Fixpoint chunk_loop (paragraphs : list str) (current_chunk : str)
    (chunks : list str) : list str * str :=
  match paragraphs with
  | [] => (chunks, current_chunk)
  | paragraph :: rest =>
      if (chunk_size <? length current_chunk + length paragraph)%nat
         && negb (is_empty current_chunk)
      then chunk_loop rest paragraph (chunks ++ [strip current_chunk])
      else chunk_loop rest
             (if is_empty current_chunk then paragraph
              else current_chunk ++ blank ++ paragraph)
             chunks
  end.

Definition chunk_content (content : str) : list str :=
  let '(chunks, current_chunk) := chunk_loop (split_blank content) [] [] in
  if is_empty current_chunk then chunks else chunks ++ [strip current_chunk].

End Chunker.

(** ** The phrase matchers shared by the three routing functions *)

Module Matchers.

(** [query_lower in patterns or any(query_lower.startswith(g + " ") or
    query_lower.endswith(" " + g) or query_lower == g for g in patterns)] *)
Definition phrase_match (query_lower : str) (patterns : list str) : bool :=
  mem query_lower patterns ||
  existsb (fun g => startswith query_lower (g ++ [space])
                    || endswith query_lower (space :: g)
                    || str_eqb query_lower g) patterns.

(** [any(pattern in query_lower for pattern in patterns)] *)
Definition any_in (query_lower : str) (patterns : list str) : bool :=
  existsb (fun pattern => contains query_lower pattern) patterns.

(** [query.lower().strip()] *)
Definition normalize (query : str) : str := strip (lower query).

End Matchers.

Import Matchers.

(** ** The world: the collection, the outside services, the call log *)

Inductive meta_value :=
  | MStr (s : str)
  | MBool (b : bool)
  | MInt (n : Z).

Abbreviation metadata := (gmap str meta_value).

(** What [scrape_wikipedia_page] returns. *)
Record wiki_data := {
  wd_title : str;
  wd_content : str;
  wd_metadata : metadata
}.

(** A record of the collection: the document text and its metadata. *)
Record stored := { st_document : str; st_metadata : metadata }.

Abbreviation collection := (gmap str stored).

(** The entries of [collection.query(...)] for the single query text, that
    is [results['documents'][0]] and so on.  A record stored without metadata
    comes back as [None]; distances are floats, here rationals (the program
    only passes them on). *)
Record query_result := {
  qr_documents : list str;
  qr_metadatas : list (option metadata);
  qr_distances : list Q;
  qr_ids : list str
}.

(** The two prompts sent to the chat model.  Each is a fixed template around
    the interpolated values, so a request is identified by those values. *)
Inductive chat_request :=
  | RelevancePrompt (query : str)
  | SummaryPrompt (query : str) (combined_content : str).

Record date := { year : Z; month : Z; day : Z }.

(** The services outside the program.  [None] stands for a raised exception
    (for the chat model: the call itself, or a reply whose
    [choices[0].message.content] is not a string). *)
Record env := {
  llm_complete : chat_request -> option str;
  scrape_wikipedia_page : str -> option wiki_data;
  collection_query : collection -> str -> Z -> option query_result;
  add_existing_raises : bool;
  datetime_now : date
}.

Inductive event :=
  | LlmCall (r : chat_request)
  | Scrape (url : str)
  | StoreGet (id : str)
  | StoreAdd (id : str)
  | StoreQuery (text : str) (n_results : Z).

Record world := { store : collection; log : list event }.

Inductive exn :=
  | LlmError
  | ScrapeError
  | StoreError
  | ValidationError
  | HTTPException (status_code : Z) (detail : exn).

Inductive outcome (A : Type) :=
  | Ok (a : A)
  | Raised (e : exn).
Arguments Ok {A} a.
Arguments Raised {A} e.

(** ** A state-and-exception monad over the world *)

Module Eff.

Definition M (A : Type) : Type := world -> outcome A * world.

Definition ret {A} (a : A) : M A := fun w => (Ok a, w).

Definition raise {A} (e : exn) : M A := fun w => (Raised e, w).

Definition bind {A B} (m : M A) (k : A -> M B) : M B :=
  fun w =>
    match m w with
    | (Ok a, w') => k a w'
    | (Raised e, w') => (Raised e, w')
    end.

(** [try: m except Exception as e: h e] *)
Definition try_catch {A} (m : M A) (h : exn -> M A) : M A :=
  fun w =>
    match m w with
    | (Ok a, w') => (Ok a, w')
    | (Raised e, w') => h e w'
    end.

Definition emit (ev : event) : M unit :=
  fun w => (Ok tt, {| store := store w; log := log w ++ [ev] |}).

Definition of_option {A} (e : exn) (o : option A) : M A :=
  match o with
  | Some a => ret a
  | None => raise e
  end.

End Eff.

Import Eff.

Notation "'let!' x ':=' m 'in' k" := (bind m (fun x => k))
  (at level 10, x name, m at level 100, k at level 200, only parsing).
Notation "m ;;; k" := (bind m (fun _ => k))
  (at level 200, k at level 200, only parsing).

(** ** Calls to the outside *)

Module Calls.

Section WithEnv.
Variable E : env.

(** [openai_client.chat.completions.create(...)] followed by
    [.choices[0].message.content] *)
Definition chat (r : chat_request) : M str :=
  emit (LlmCall r) ;;; of_option LlmError (llm_complete E r).

Definition scrape (url : str) : M wiki_data :=
  emit (Scrape url) ;;; of_option ScrapeError (scrape_wikipedia_page E url).

(** [collection.get(ids=[id])['ids']]: the ids among the requested ones that
    are in the collection. *)
Definition collection_get (id : str) : M (list str) :=
  emit (StoreGet id) ;;;
  fun w => (Ok (if decide (is_Some (store w !! id)) then [id] else []), w).

(** [collection.add(documents=[d], metadatas=[m], ids=[id])].  An id that is
    already present is left as it is; whether that is silent or an error
    depends on the ChromaDB release ([add_existing_raises]).  The client's
    check of its arguments is not modelled: it refuses an empty id and an
    empty metadata dictionary, so what is stated of a successful [add] is
    stated for arguments that pass that check (ingestion always passes
    them: its ids are not empty and its metadata has the page fields). *)
Definition collection_add (id document : str) (m : metadata) : M unit :=
  emit (StoreAdd id) ;;;
  fun w =>
    match store w !! id with
    | Some _ =>
        if add_existing_raises E then (Raised StoreError, w) else (Ok tt, w)
    | None =>
        (Ok tt, {| store := <[id := {| st_document := document;
                                       st_metadata := m |}]> (store w);
                   log := log w |})
    end.

(** [collection.query(query_texts=[text], n_results=n)] *)
Definition collection_query_call (text : str) (n : Z) : M query_result :=
  emit (StoreQuery text n) ;;;
  fun w =>
    match collection_query E (store w) text n with
    | Some r => (Ok r, w)
    | None => (Raised StoreError, w)
    end.

Definition now : M date := ret (datetime_now E).

End WithEnv.

End Calls.

Import Calls.

(** ** [check_and_ingest_wikipedia] *)

Module Ingest.

Definition wikipedia_url : str :=
  lit "https://en.wikipedia.org/wiki/Sai_Sai_Kham_Leng".
Definition document_id : str := lit "sai_sai_kham_leng_wiki".

(** [f"{document_id}_chunk_{i}"] *)
Definition chunk_id (i : nat) : str :=
  document_id ++ lit "_chunk_" ++ of_nat i.

(** [wiki_data['metadata'].copy()] followed by [.update({...})] *)
Definition chunk_metadata (base : metadata) (i total : nat) : metadata :=
  <[lit "chunk_id" := MStr (chunk_id i)]>
    (<[lit "total_chunks" := MInt (Z.of_nat total)]>
       (<[lit "chunk_index" := MInt (Z.of_nat i)]> base)).

Section WithEnv.
Variable E : env.

(** [for i, chunk in enumerate(chunks): collection.add(...)], from index [i]
    on. *)
Fixpoint add_chunks (base : metadata) (total i : nat) (chunks : list str)
    : M unit :=
  match chunks with
  | [] => ret tt
  | chunk :: rest =>
      collection_add E (chunk_id i) chunk (chunk_metadata base i total) ;;;
      add_chunks base total (S i) rest
  end.

Definition check_and_ingest_wikipedia : M unit :=
  try_catch
    (let! existing := collection_get document_id in
     if negb (bool_decide (existing = [])) then ret tt
     else
       let! wiki := scrape E wikipedia_url in
       let content := wd_content wiki in
       let chunks := Chunker.chunk_content content in
       add_chunks (wd_metadata wiki) (length chunks) 0 chunks ;;;
       collection_add E document_id (wd_content wiki) (wd_metadata wiki) ;;;
       ret tt)
    (fun e => raise e).

End WithEnv.

End Ingest.

(** ** [check_query_relevance] *)

Module Relevance.

Definition greeting_patterns : list str :=
  map lit ["hi"; "hello"; "hey"; "good morning"; "good afternoon";
           "good evening"; "how are you"; "what's up"; "greetings";
           "nice to meet you"; "thanks"; "thank you"; "bye"; "goodbye";
           "see you"; "ok"; "okay"]%string.

Definition contextual_patterns : list str :=
  map lit ["so how old"; "how old"; "what age"; "his age"; "age now";
           "current age"; "so what"; "and what"; "tell me more"; "more info";
           "more details"; "when was that"; "what year"; "which year";
           "how many"; "how much"]%string.

Section WithEnv.
Variable E : env.

Definition check_query_relevance (query : str) : M bool :=
  try_catch
    (let query_lower := normalize query in
     if phrase_match query_lower greeting_patterns then ret true
     else if any_in query_lower contextual_patterns then ret true
     else
       let! content := chat E (RelevancePrompt query) in
       let result := upper (strip content) in
       ret (str_eqb result (lit "YES")))
    (fun _ => ret true).

End WithEnv.

End Relevance.

(** ** [summarize_search_results] *)

Module Summarize.

Definition greeting_patterns : list str :=
  map lit ["hi"; "hello"; "hey"; "good morning"; "good afternoon";
           "good evening"; "how are you"; "what's up"; "greetings";
           "nice to meet you"]%string.

Definition farewell_patterns : list str :=
  map lit ["thanks"; "thank you"; "bye"; "goodbye"; "see you"]%string.

Definition acknowledgment_patterns : list str :=
  map lit ["ok"; "okay"; "alright"; "got it"]%string.

Definition age_patterns : list str :=
  map lit ["so how old"; "how old"; "what age"; "his age"; "age now";
           "current age"]%string.

Definition greeting_reply : str :=
  lit "Hello! I'm your AI assistant for Sai Sai Kham Leng. I can help you learn about his music, movies, career, and personal life. What would you like to know about him?".

Definition farewell_reply : str :=
  lit "You're welcome! Feel free to ask me anything else about Sai Sai Kham Leng anytime. Have a great day!".

Definition acknowledgment_reply : str :=
  lit "Great! Is there anything else you'd like to know about Sai Sai Kham Leng? I can tell you about his albums, movies, career highlights, or personal life.".

Definition no_documents_reply : str :=
  lit "I'd be happy to help you learn about Sai Sai Kham Leng! Could you ask me something specific about his music, movies, or career?".

Definition failure_reply : str :=
  lit "I found some relevant information, but couldn't generate a summary at the moment.".

(** The age computed from the birth date [datetime(1979, 4, 10)]. *)
Definition age_on (current_date : date) : Z :=
  let age := (year current_date - 1979)%Z in
  if (month current_date <? 4)%Z
     || ((month current_date =? 4)%Z && (day current_date <? 10)%Z)
  then (age - 1)%Z else age.

(** [f"Sai Sai Kham Leng is currently {age} years old. He was born on April
    10, 1979."] *)
Definition age_reply (age : Z) : str :=
  lit "Sai Sai Kham Leng is currently " ++ of_Z age
  ++ lit " years old. He was born on April 10, 1979.".

Section WithEnv.
Variable E : env.

Definition summarize_search_results (query : str) (documents : list str)
    : M str :=
  try_catch
    (let query_lower := normalize query in
     if phrase_match query_lower greeting_patterns then ret greeting_reply
     else if phrase_match query_lower farewell_patterns then ret farewell_reply
     else if phrase_match query_lower acknowledgment_patterns
     then ret acknowledgment_reply
     else if any_in query_lower age_patterns then
       let! current_date := now E in
       ret (age_reply (age_on current_date))
     else if match documents with
             | [] => true
             | d :: _ => is_empty d
             end
     then ret no_documents_reply
     else
       let combined_content := join Chunker.blank (take 3 documents) in
       let! content := chat E (SummaryPrompt query combined_content) in
       ret (strip content))
    (fun _ => ret failure_reply).

End WithEnv.

End Summarize.

(** ** The [/search/] endpoint *)

Module Endpoint.

Record QueryRequest := { query : str; n_results : Z }.

Record QueryResponse := {
  documents : list str;
  metadatas : list metadata;
  distances : list Q;
  ids : list str;
  summary : option str;
  is_relevant : bool;
  message : option str
}.

Definition greeting_patterns : list str :=
  map lit ["hi"; "hello"; "hey"; "good morning"; "good afternoon";
           "good evening"; "how are you"; "what's up"; "greetings";
           "nice to meet you"; "thanks"; "thank you"; "bye"; "goodbye";
           "see you"; "ok"; "okay"; "alright"; "got it"]%string.

Definition age_patterns : list str :=
  map lit ["so how old"; "how old"; "what age"; "his age"; "age now";
           "current age"]%string.

Definition not_relevant_message : str :=
  lit "Your question doesn't seem to be related to Sai Sai Kham Leng. Please ask about his music, movies, career, or personal life.".

Definition nothing_found_summary : str :=
  lit "I couldn't find specific information about that topic in the available content about Sai Sai Kham Leng.".

Definition nothing_found_message : str := lit "No matching content found.".

(** The model validates [metadatas: List[dict]]: an entry that is [None] is
    rejected. *)
Fixpoint validate_metadatas (ms : list (option metadata))
    : option (list metadata) :=
  match ms with
  | [] => Some []
  | Some m :: rest =>
      match validate_metadatas rest with
      | Some ms' => Some (m :: ms')
      | None => None
      end
  | None :: _ => None
  end.

Section WithEnv.
Variable E : env.

Definition search_documents (request : QueryRequest) : M QueryResponse :=
  try_catch
    (let! relevant := Relevance.check_query_relevance E (query request) in
     if negb relevant then
       ret {| documents := []; metadatas := []; distances := []; ids := [];
              summary := None; is_relevant := false;
              message := Some not_relevant_message |}
     else
       let query_lower := normalize (query request) in
       let is_greeting := phrase_match query_lower greeting_patterns in
       let is_age_question := any_in query_lower age_patterns in
       if is_greeting || is_age_question then
         let! text :=
           Summarize.summarize_search_results E (query request) [] in
         ret {| documents := []; metadatas := []; distances := []; ids := [];
                summary := Some text; is_relevant := true; message := None |}
       else
         let! results :=
           collection_query_call E (query request) (n_results request) in
         if bool_decide (qr_documents results = []) then
           ret {| documents := []; metadatas := []; distances := [];
                  ids := []; summary := Some nothing_found_summary;
                  is_relevant := true;
                  message := Some nothing_found_message |}
         else
           let! text :=
             Summarize.summarize_search_results E (query request)
               (qr_documents results) in
           let! ms :=
             of_option ValidationError
               (validate_metadatas (qr_metadatas results)) in
           ret {| documents := qr_documents results; metadatas := ms;
                  distances := qr_distances results; ids := qr_ids results;
                  summary := Some text; is_relevant := true;
                  message := None |})
    (fun e => raise (HTTPException 400 e)).

End WithEnv.

End Endpoint.

(** ** The text cleaning of [scrape_wikipedia_page] (lines 76-102) *)

Module Scraper.

Definition lbracket : ascii := ascii_of_N 91.
Definition rbracket : ascii := ascii_of_N 93.

(** [\d] on code points below 256: the digits 0..9. *)
Definition is_digit (c : ascii) : bool :=
  let n := N_of_ascii c in ((48 <=? n) && (n <=? 57))%N.

(** [re.sub(r'\[\d+\]', '', text)], one scan from the left.  [pending] holds
    the digits read after an opening bracket that may still turn out to be a
    citation marker; a bracket that does not is put back with its digits. *)
Fixpoint remove_citations_from (pending : option str) (s : str) : str :=
  match s with
  | [] =>
      match pending with
      | Some ds => lbracket :: ds
      | None => []
      end
  | c :: s' =>
      match pending with
      | None =>
          if Ascii.eqb c lbracket then remove_citations_from (Some []) s'
          else c :: remove_citations_from None s'
      | Some ds =>
          if is_digit c then remove_citations_from (Some (ds ++ [c])) s'
          else if Ascii.eqb c rbracket && negb (is_empty ds)
          then remove_citations_from None s'
          else lbracket :: ds ++
               (if Ascii.eqb c lbracket then remove_citations_from (Some []) s'
                else c :: remove_citations_from None s')
      end
  end.

Definition remove_citations (text : str) : str :=
  remove_citations_from None text.

(** [re.sub(r'\s+', ' ', text)]: [in_run] tells that the previous character
    was whitespace, already replaced by the single space. *)
Fixpoint collapse_from (in_run : bool) (s : str) : str :=
  match s with
  | [] => []
  | c :: s' =>
      if is_space c
      then if in_run then collapse_from true s'
           else space :: collapse_from true s'
      else c :: collapse_from false s'
  end.

Definition collapse_whitespace (text : str) : str := collapse_from false text.

(** The body of [for p in paragraphs], applied to [p.get_text()]. *)
Definition clean_paragraph (raw : str) : str :=
  collapse_whitespace (remove_citations (strip raw)).

(** [if text and len(text) > 20] *)
Definition substantial (text : str) : bool :=
  negb (is_empty text) && (20 <? length text)%nat.

Definition content_parts (raw_paragraphs : list str) : list str :=
  List.filter substantial (map clean_paragraph raw_paragraphs).

(** What the HTML parser hands over: the text of the first heading, the
    texts of the paragraphs of the content division, and whether the page has
    an infobox table. *)
Record page := {
  heading : str;
  paragraphs : list str;
  has_infobox : bool
}.

Definition page_metadata (url title : str) (infobox : bool) : metadata :=
  <[lit "has_infobox" := MBool infobox]>
    (<[lit "title" := MStr title]>
       (<[lit "url" := MStr url]>
          (<[lit "source" := MStr (lit "wikipedia")]> ∅))).

Definition wiki_of_page (url : str) (p : page) : wiki_data :=
  let title := strip (heading p) in
  {| wd_title := title;
     wd_content := join Chunker.blank (content_parts (paragraphs p));
     wd_metadata := page_metadata url title (has_infobox p) |}.

End Scraper.

(** ** [startup_event] *)

Module Startup.

Section WithEnv.
Variable E : env.

Definition startup_event : M unit :=
  try_catch
    (Ingest.check_and_ingest_wikipedia E ;;; ret tt)
    (fun _ => ret tt).

End WithEnv.

End Startup.

(** ** The document endpoints *)

Module Documents.

(** The request model [Document]: [id], [content] and the optional
    [metadata]. *)
Record Document := {
  doc_id : str;
  doc_content : str;
  doc_metadata : option metadata
}.

(** The dictionary returned by [get_document]. *)
Record DocumentView := {
  view_id : str;
  view_content : str;
  view_metadata : metadata
}.

(** What [collection.get(ids=[id])] returns. *)
Record get_result := {
  gr_ids : list str;
  gr_documents : list str;
  gr_metadatas : list metadata
}.

(** What the body of an endpoint raises: an exception of the collection
    client, an [IndexError], or an [HTTPException] whose detail is a text or
    the [str] of a caught exception. *)
Inductive api_exn :=
  | ClientError (e : exn)
  | IndexError
  | HTTPError (status_code : Z) (detail : api_detail)
with api_detail :=
  | Text (s : str)
  | StrOf (e : api_exn).

Inductive api_outcome (A : Type) :=
  | Returned (a : A)
  | Failed (e : api_exn).
Arguments Returned {A} a.
Arguments Failed {A} e.

Definition Api (A : Type) : Type := world -> api_outcome A * world.

Definition api_ret {A} (a : A) : Api A := fun w => (Returned a, w).

Definition api_raise {A} (e : api_exn) : Api A := fun w => (Failed e, w).

Definition api_bind {A B} (m : Api A) (k : A -> Api B) : Api B :=
  fun w =>
    match m w with
    | (Returned a, w') => k a w'
    | (Failed e, w') => (Failed e, w')
    end.

(** [try: m except Exception as e: h e] *)
Definition api_try {A} (m : Api A) (h : api_exn -> Api A) : Api A :=
  fun w =>
    match m w with
    | (Returned a, w') => (Returned a, w')
    | (Failed e, w') => h e w'
    end.

(** A call to the collection client inside an endpoint. *)
Definition client {A} (m : M A) : Api A :=
  fun w =>
    match m w with
    | (Ok a, w') => (Returned a, w')
    | (Raised e, w') => (Failed (ClientError e), w')
    end.

(** [collection.get(ids=[id])] with the documents and metadatas. *)
Definition collection_get_record (id : str) : M get_result :=
  emit (StoreGet id) ;;;
  fun w =>
    match store w !! id with
    | Some r =>
        (Ok {| gr_ids := [id]; gr_documents := [st_document r];
               gr_metadatas := [st_metadata r] |}, w)
    | None =>
        (Ok {| gr_ids := []; gr_documents := []; gr_metadatas := [] |}, w)
    end.

(** [collection.delete(ids=[id])]; an id that is not there is passed over.
    (The log keeps the calls of the search and ingestion paths only.) *)
Definition collection_delete (id : str) : M unit :=
  fun w => (Ok tt, {| store := delete id (store w); log := log w |}).

(** [collection.count()] *)
Definition collection_count : M nat :=
  fun w => (Ok (size (store w)), w).

Definition collection_name : str := lit "wiki_documents".

(** [xs[0]] *)
Definition first {A} (xs : list A) : Api A :=
  match xs with
  | x :: _ => api_ret x
  | [] => api_raise IndexError
  end.

Section WithEnv.
Variable E : env.

Definition add_document (document : Document) : Api str :=
  api_try
    (api_bind
       (client (collection_add E (doc_id document) (doc_content document)
                  (default ∅ (doc_metadata document))))
       (fun _ =>
          api_ret (lit "Document " ++ doc_id document
                   ++ lit " added successfully")))
    (fun e => api_raise (HTTPError 400 (StrOf e))).

Definition get_document (document_id : str) : Api DocumentView :=
  api_try
    (api_bind (client (collection_get_record document_id)) (fun result =>
       if bool_decide (gr_ids result = [])
       then api_raise (HTTPError 404 (Text (lit "Document not found")))
       else
         api_bind (first (gr_ids result)) (fun i =>
         api_bind (first (gr_documents result)) (fun d =>
         api_bind (first (gr_metadatas result)) (fun m =>
           api_ret {| view_id := i; view_content := d;
                      view_metadata := m |})))))
    (fun e => api_raise (HTTPError 400 (StrOf e))).

Definition delete_document (document_id : str) : Api str :=
  api_try
    (api_bind (client (collection_delete document_id)) (fun _ =>
       api_ret (lit "Document " ++ document_id
                ++ lit " deleted successfully")))
    (fun e => api_raise (HTTPError 400 (StrOf e))).

(** [get_collection_info]: the collection name and the document count. *)
Definition get_collection_info : Api (str * nat) :=
  api_try
    (api_bind (client collection_count) (fun count =>
       api_ret (collection_name, count)))
    (fun e => api_raise (HTTPError 400 (StrOf e))).

End WithEnv.

End Documents.

(** * Vocabulary of the properties *)

Module Props.

Definition all_space (s : str) : Prop := forallb is_space s = true.

(** A string with a first character that is not whitespace. *)
Definition head_ok (s : str) : Prop :=
  match s with
  | c :: _ => is_space c = false
  | [] => False
  end.

(** A string with a first and a last character, neither of them
    whitespace. *)
Definition clean (s : str) : Prop := head_ok s /\ head_ok (rev s).

(** Whether the string starts with the blank-line separator. *)
Definition starts_blank (s : str) : bool :=
  match s with
  | c :: d :: _ => Ascii.eqb c nl && Ascii.eqb d nl
  | _ => false
  end.

(** The [if current_chunk: chunks.append(...)] after the loop. *)
Definition finish (st : list str * str) : list str :=
  let '(chunks, current_chunk) := st in
  if is_empty current_chunk then chunks else chunks ++ [strip current_chunk].

(** The paragraphs of a chunked text: every chunk split back on the
    separator, in order. *)
Definition paragraphs_of (chunks : list str) : list str :=
  concat (map split_blank chunks).

Definition good (p : str) : Prop := clean p /\ split_blank p = [p].

(** The query is a phrase of the list, or starts with one followed by a
    space, or ends with a space followed by one. *)
Definition greets (query_lower : str) (patterns : list str) : Prop :=
  exists g, In g patterns /\
    (query_lower = g
     \/ (exists t, query_lower = g ++ [space] ++ t)
     \/ (exists t, query_lower = t ++ [space] ++ g)).

(** Some pattern of the list occurs in the query. *)
Definition mentions (query_lower : str) (patterns : list str) : Prop :=
  exists p, In p patterns /\ exists a b, query_lower = a ++ p ++ b.

(** The world after one more call to the outside. *)
Definition logged (w : world) (ev : event) : world :=
  {| store := store w; log := log w ++ [ev] |}.

(** The world after a new record was added. *)
Definition put (id document : str) (m : metadata) (w : world) : world :=
  {| store := <[id := {| st_document := document; st_metadata := m |}]>
                (store w);
     log := log w ++ [StoreAdd id] |}.

(** The relevance verdict read off the model's reply; a failed call counts
    as relevant. *)
Definition verdict (reply : option str) : bool :=
  match reply with
  | Some content => str_eqb (upper (strip content)) (lit "YES")
  | None => true
  end.

(** The summary text read off the model's reply. *)
Definition summary_text (reply : option str) : str :=
  match reply with
  | Some content => strip content
  | None => Summarize.failure_reply
  end.

(** [not documents or not documents[0]] *)
Definition no_documents (docs : list str) : bool :=
  match docs with
  | [] => true
  | d :: _ => is_empty d
  end.

Definition summary_prompt (q : str) (docs : list str) : chat_request :=
  SummaryPrompt q (join Chunker.blank (take 3 docs)).

(** The two pattern tests of [check_query_relevance], made before the model
    is asked. *)
Definition relevance_shortcut (q : str) : bool :=
  phrase_match (normalize q) Relevance.greeting_patterns
  || any_in (normalize q) Relevance.contextual_patterns.

(** The branch of [summarize_search_results] chosen by the patterns, in the
    order of its [if]s. *)
Inductive route := Greeting | Farewell | Acknowledgment | Age | Retrieval.

Definition route_of (q : str) : route :=
  if phrase_match (normalize q) Summarize.greeting_patterns then Greeting
  else if phrase_match (normalize q) Summarize.farewell_patterns then Farewell
  else if phrase_match (normalize q) Summarize.acknowledgment_patterns
  then Acknowledgment
  else if any_in (normalize q) Summarize.age_patterns then Age
  else Retrieval.

(** The pattern test of [search_documents] that skips the vector search. *)
Definition search_shortcut (q : str) : bool :=
  phrase_match (normalize q) Endpoint.greeting_patterns
  || any_in (normalize q) Endpoint.age_patterns.

(** The decisions taken on the normalised query by the three functions. *)
Definition routing (q : str) : bool * route * bool :=
  (relevance_shortcut q, route_of q, search_shortcut q).

(** The four lists of a vector-search result describe the same hits. *)
Definition aligned (r : query_result) : Prop :=
  length (qr_documents r) = length (qr_metadatas r)
  /\ length (qr_metadatas r) = length (qr_distances r)
  /\ length (qr_distances r) = length (qr_ids r).

End Props.

(** * Sample inputs *)

Module Samples.

(** An environment whose chat model gives one fixed reply (or fails), with
    no network and an empty vector search. *)
Definition env_of (reply : option str) : env :=
  {| llm_complete := fun _ => reply;
     scrape_wikipedia_page := fun _ => None;
     collection_query := fun _ _ _ => None;
     add_existing_raises := false;
     datetime_now := {| year := 2024; month := 3; day := 1 |} |}.

Definition empty_world : world := {| store := ∅; log := [] |}.

(** Two paragraphs of 500 characters each. *)
Definition two_halves : str :=
  repeat "a"%char 500 ++ Chunker.blank ++ repeat "a"%char 500.

Definition three_paragraphs : str :=
  lit "Sai Sai Kham Leng is a singer." ++ Chunker.blank
  ++ lit "He was born in 1979." ++ Chunker.blank ++ lit "He also acts.".

(** A vector store with one hit for every query. *)
Definition env_one_hit : env :=
  {| llm_complete := fun _ => Some (lit " He has released many albums. ");
     scrape_wikipedia_page := fun _ => None;
     collection_query := fun _ _ _ =>
       Some {| qr_documents := [lit "Sai Sai Kham Leng is a singer."];
               qr_metadatas := [Some ∅];
               qr_distances := [1 # 2]%Q;
               qr_ids := [lit "sai_sai_kham_leng_wiki_chunk_0"] |};
     add_existing_raises := false;
     datetime_now := {| year := 2024; month := 3; day := 1 |} |}.

Definition more_request : Endpoint.QueryRequest :=
  {| Endpoint.query := lit "Tell me more about his albums";
     Endpoint.n_results := 5 |}.

Definition more_response : Endpoint.QueryResponse :=
  {| Endpoint.documents := [lit "Sai Sai Kham Leng is a singer."];
     Endpoint.metadatas := [∅];
     Endpoint.distances := [1 # 2]%Q;
     Endpoint.ids := [lit "sai_sai_kham_leng_wiki_chunk_0"];
     Endpoint.summary := Some (lit "He has released many albums.");
     Endpoint.is_relevant := true;
     Endpoint.message := None |}.

(** A collection that already holds the full document. *)
Definition ingested_world : world :=
  {| store := {[ Ingest.document_id :=
                   {| st_document := lit "Sai Sai Kham Leng";
                      st_metadata := ∅ |} ]};
     log := [] |}.

End Samples.

(** * Vocabulary of the further properties *)

Module MoreProps.

Import Props.

(** Every whitespace character of [s] is a space, and not the neighbour of
    another one; [after_space] tells that a space comes just before [s]. *)
Fixpoint spaced_ok (after_space : bool) (s : str) : bool :=
  match s with
  | [] => true
  | c :: s' =>
      if is_space c
      then Ascii.eqb c space && negb after_space && spaced_ok true s'
      else spaced_ok false s'
  end.

Definition all_digits (ds : str) : Prop := forallb Scraper.is_digit ds = true.

(** The string does not start with a citation marker: an opening bracket,
    one digit or more, a closing bracket. *)
Definition no_marker_at (s : str) : Prop :=
  forall ds rest,
    s = Scraper.lbracket :: ds ++ Scraper.rbracket :: rest ->
    all_digits ds -> ds = [].

(** The world after further calls to the outside. *)
Definition extend (w : world) (evs : list event) : world :=
  {| store := store w; log := log w ++ evs |}.

(** The verdict of [check_query_relevance]. *)
Definition relevant (E : env) (q : str) : bool :=
  relevance_shortcut q || verdict (llm_complete E (RelevancePrompt q)).

(** The calls [check_query_relevance] makes. *)
Definition relevance_events (q : str) : list event :=
  if relevance_shortcut q then [] else [LlmCall (RelevancePrompt q)].

(** The text [summarize_search_results] returns. *)
Definition summary_of (E : env) (q : str) (docs : list str) : str :=
  match route_of q with
  | Greeting => Summarize.greeting_reply
  | Farewell => Summarize.farewell_reply
  | Acknowledgment => Summarize.acknowledgment_reply
  | Age => Summarize.age_reply (Summarize.age_on (datetime_now E))
  | Retrieval =>
      if no_documents docs then Summarize.no_documents_reply
      else summary_text (llm_complete E (summary_prompt q docs))
  end.

(** The calls [summarize_search_results] makes. *)
Definition summary_events (q : str) (docs : list str) : list event :=
  match route_of q with
  | Retrieval =>
      if no_documents docs then [] else [LlmCall (summary_prompt q docs)]
  | _ => []
  end.

(** The four kinds of response of [search_documents]. *)
Definition not_relevant_response : Endpoint.QueryResponse :=
  {| Endpoint.documents := []; Endpoint.metadatas := [];
     Endpoint.distances := []; Endpoint.ids := [];
     Endpoint.summary := None; Endpoint.is_relevant := false;
     Endpoint.message := Some Endpoint.not_relevant_message |}.

Definition shortcut_response (text : str) : Endpoint.QueryResponse :=
  {| Endpoint.documents := []; Endpoint.metadatas := [];
     Endpoint.distances := []; Endpoint.ids := [];
     Endpoint.summary := Some text; Endpoint.is_relevant := true;
     Endpoint.message := None |}.

Definition nothing_found_response : Endpoint.QueryResponse :=
  {| Endpoint.documents := []; Endpoint.metadatas := [];
     Endpoint.distances := []; Endpoint.ids := [];
     Endpoint.summary := Some Endpoint.nothing_found_summary;
     Endpoint.is_relevant := true;
     Endpoint.message := Some Endpoint.nothing_found_message |}.

Definition full_response (r : query_result) (ms : list metadata) (text : str)
    : Endpoint.QueryResponse :=
  {| Endpoint.documents := qr_documents r; Endpoint.metadatas := ms;
     Endpoint.distances := qr_distances r; Endpoint.ids := qr_ids r;
     Endpoint.summary := Some text; Endpoint.is_relevant := true;
     Endpoint.message := None |}.

(** The calls one search may make, in their order: at most one relevance
    question to the model, then at most one query to the vector store, then
    at most one summary request to the model. *)
Definition search_trace (q : str) (n : Z) (evs : list event) : Prop :=
  exists asked fetched,
    evs = asked ++ fetched
    /\ (asked = [] \/ asked = [LlmCall (RelevancePrompt q)])
    /\ (fetched = [] \/ fetched = [StoreQuery q n]
        \/ exists c, fetched = [StoreQuery q n; LlmCall (SummaryPrompt q c)]).

(** The four texts the summarizer gives without looking at documents. *)
Definition canned (E : env) (text : str) : Prop :=
  text = Summarize.greeting_reply
  \/ text = Summarize.farewell_reply
  \/ text = Summarize.acknowledgment_reply
  \/ text = Summarize.age_reply (Summarize.age_on (datetime_now E)).

(** The record stored for the chunk of index [i]. *)
Definition chunk_record (base : metadata) (total i : nat) (chunk : str)
    : stored :=
  {| st_document := chunk;
     st_metadata := Ingest.chunk_metadata base i total |}.

(** The collection after the chunks were added under the ids of index [i]
    and up. *)
Fixpoint with_chunks (base : metadata) (total i : nat) (chunks : list str)
    (s : collection) : collection :=
  match chunks with
  | [] => s
  | chunk :: rest =>
      with_chunks base total (S i) rest
        (<[Ingest.chunk_id i := chunk_record base total i chunk]> s)
  end.

(** What [get_document] raises for an id that is not in the collection:
    the 404 error of its body, caught and raised again with status 400. *)
Definition missing_document_error : Documents.api_exn :=
  Documents.HTTPError 400
    (Documents.StrOf
       (Documents.HTTPError 404
          (Documents.Text (lit "Document not found")))).

(** The request passes the collection client's check of its arguments: the
    id is not empty, and the metadata sent, [document.metadata or {}], is
    not the empty dictionary. *)
Definition accepted (document : Documents.Document) : Prop :=
  Documents.doc_id document <> []
  /\ default ∅ (Documents.doc_metadata document) <> ∅.

Definition added_message (id : str) : str :=
  lit "Document " ++ id ++ lit " added successfully".

Definition deleted_message (id : str) : str :=
  lit "Document " ++ id ++ lit " deleted successfully".

(** The order of calendar dates. *)
Definition before (a b : date) : Prop :=
  (year a < year b
   \/ (year a = year b
       /\ (month a < month b \/ (month a = month b /\ day a < day b))))%Z.

(** The birthday number [n]: April 10 of the year 1979 + [n]. *)
Definition birthday (n : Z) : date :=
  {| year := 1979 + n; month := 4; day := 10 |}.

End MoreProps.

(** * Further sample inputs *)

Module MoreSamples.

Import Samples.

(** A paragraph of 1200 characters followed by a short one. *)
Definition long_and_short : str :=
  repeat "a"%char 1200 ++ Chunker.blank ++ lit "A short paragraph.".

(** One hit of the vector store. *)
Definition one_hit : query_result :=
  {| qr_documents := [lit "Sai Sai Kham Leng is a singer."];
     qr_metadatas := [Some ∅];
     qr_distances := [1 # 2]%Q;
     qr_ids := [lit "sai_sai_kham_leng_wiki_chunk_0"] |}.

(** The chat model is down; the vector store answers with [hits]. *)
Definition env_model_down (hits : option query_result) : env :=
  {| llm_complete := fun _ => None;
     scrape_wikipedia_page := fun _ => None;
     collection_query := fun _ _ _ => hits;
     add_existing_raises := false;
     datetime_now := {| year := 2024; month := 3; day := 1 |} |}.

Definition albums_request : Endpoint.QueryRequest :=
  {| Endpoint.query := lit "List his albums"; Endpoint.n_results := 5 |}.

(** A page of two short paragraphs, as the scraper would return it. *)
Definition small_wiki : wiki_data :=
  Scraper.wiki_of_page Ingest.wikipedia_url
    {| Scraper.heading := lit " Sai Sai Kham Leng ";
       Scraper.paragraphs :=
         [lit "Sai Sai Kham Leng is a Burmese singer and actor.[1]";
          lit "He was born on 10 April 1979 in Taunggyi.[2][3]"];
       Scraper.has_infobox := true |}.

(** The network answers with [page]; the chat model is down. *)
Definition env_scraping (page : option wiki_data) (raises : bool) : env :=
  {| llm_complete := fun _ => None;
     scrape_wikipedia_page := fun _ => page;
     collection_query := fun _ _ _ => None;
     add_existing_raises := raises;
     datetime_now := {| year := 2024; month := 3; day := 1 |} |}.

(** The document of the repository's own round-trip test. *)
Definition test_document : Documents.Document :=
  {| Documents.doc_id := lit "test_doc_1";
     Documents.doc_content :=
       lit "This is a test document for FastAPI and ChromaDB integration.";
     Documents.doc_metadata :=
       Some (<[lit "category" := MStr (lit "test")]>
               (<[lit "author" := MStr (lit "pytest")]> ∅)) |}.

(** A collection that holds the test document with another text. *)
Definition world_with_test_doc : world :=
  {| store := {[ lit "test_doc_1" := {| st_document := lit "older text";
                                        st_metadata := ∅ |} ]};
     log := [] |}.

End MoreSamples.

(** * Case changes *)

Module CaseProps.

Import Props.






End CaseProps.

(** * Queries outside Latin-1

    Python [str] on a wider alphabet: the code points below 256 and the six
    code points outside that range which [lower] and [upper] reach from
    them or send into them.  The alphabet is closed under both. *)

Module Wide.

Inductive uchar :=
  | L1 (c : ascii)          (* U+0000 .. U+00FF *)
  | DotlessI                (* U+0131, small dotless i *)
  | LongS                   (* U+017F, small long s *)
  | CapitalYDiaeresis       (* U+0178 *)
  | CapitalMu               (* U+039C *)
  | SmallMu                 (* U+03BC *)
  | KelvinSign.             (* U+212A *)

Abbreviation ustr := (list uchar).

(** A Latin-1 string as a string of the wider alphabet. *)
Definition inj (s : str) : ustr := map L1 s.

Definition uchar_eqb (a b : uchar) : bool :=
  match a, b with
  | L1 x, L1 y => Ascii.eqb x y
  | DotlessI, DotlessI => true
  | LongS, LongS => true
  | CapitalYDiaeresis, CapitalYDiaeresis => true
  | CapitalMu, CapitalMu => true
  | SmallMu, SmallMu => true
  | KelvinSign, KelvinSign => true
  | _, _ => false
  end.

(** [c.isspace()]: none of the six is whitespace. *)
Definition is_space (c : uchar) : bool :=
  match c with
  | L1 x => Text.is_space x
  | _ => false
  end.

(** [c.lower()] *)
Definition char_lower (c : uchar) : uchar :=
  match c with
  | L1 x => L1 (Text.char_lower x)
  | CapitalYDiaeresis => L1 (ascii_of_N 255)
  | CapitalMu => SmallMu
  | KelvinSign => L1 (ascii_of_N 107)
  | DotlessI => DotlessI
  | LongS => LongS
  | SmallMu => SmallMu
  end.

(** [c.upper()], a string: the sharp s becomes two letters. *)
Definition char_upper (c : uchar) : ustr :=
  match c with
  | L1 x =>
      let n := N_of_ascii x in
      (if (97 <=? n) && (n <=? 122)
          || (224 <=? n) && (n <=? 254) && negb (n =? 247)
       then [L1 (ascii_of_N (n - 32))]
       else if n =? 223 then [L1 (ascii_of_N 83); L1 (ascii_of_N 83)]
       else if n =? 181 then [CapitalMu]
       else if n =? 255 then [CapitalYDiaeresis]
       else [c])%N
  | DotlessI => [L1 (ascii_of_N 73)]
  | LongS => [L1 (ascii_of_N 83)]
  | SmallMu => [CapitalMu]
  | CapitalYDiaeresis => [c]
  | CapitalMu => [c]
  | KelvinSign => [c]
  end.

Definition lower (s : ustr) : ustr := map char_lower s.
Definition upper (s : ustr) : ustr := flat_map char_upper s.

Fixpoint lstrip (s : ustr) : ustr :=
  match s with
  | [] => []
  | c :: s' => if is_space c then lstrip s' else s
  end.

Definition rstrip (s : ustr) : ustr := rev (lstrip (rev s)).

Definition strip (s : ustr) : ustr := rstrip (lstrip s).

Fixpoint str_eqb (a b : ustr) : bool :=
  match a, b with
  | [], [] => true
  | x :: a', y :: b' => uchar_eqb x y && str_eqb a' b'
  | _, _ => false
  end.

Fixpoint startswith (s p : ustr) {struct p} : bool :=
  match p, s with
  | [], _ => true
  | x :: p', y :: s' => uchar_eqb x y && startswith s' p'
  | _ :: _, [] => false
  end.

Definition endswith (s p : ustr) : bool := startswith (rev s) (rev p).

Fixpoint contains (s p : ustr) : bool :=
  startswith s p ||
  match s with
  | [] => false
  | _ :: s' => contains s' p
  end.

Definition mem (x : ustr) (xs : list ustr) : bool := existsb (str_eqb x) xs.

Definition phrase_match (query_lower : ustr) (patterns : list ustr) : bool :=
  mem query_lower patterns ||
  existsb (fun g => startswith query_lower (g ++ [L1 space])
                    || endswith query_lower (L1 space :: g)
                    || str_eqb query_lower g) patterns.

Definition any_in (query_lower : ustr) (patterns : list ustr) : bool :=
  existsb (fun pattern => contains query_lower pattern) patterns.

(** [query.lower().strip()] *)
Definition normalize (query : ustr) : ustr := strip (lower query).

(** The pattern decisions of the three functions, as in [Props], on the
    wider alphabet and with the same pattern lists. *)
Definition relevance_shortcut (q : ustr) : bool :=
  phrase_match (normalize q) (map inj Relevance.greeting_patterns)
  || any_in (normalize q) (map inj Relevance.contextual_patterns).

Definition route_of (q : ustr) : Props.route :=
  if phrase_match (normalize q) (map inj Summarize.greeting_patterns)
  then Props.Greeting
  else if phrase_match (normalize q) (map inj Summarize.farewell_patterns)
  then Props.Farewell
  else if phrase_match (normalize q)
            (map inj Summarize.acknowledgment_patterns)
  then Props.Acknowledgment
  else if any_in (normalize q) (map inj Summarize.age_patterns)
  then Props.Age
  else Props.Retrieval.

Definition search_shortcut (q : ustr) : bool :=
  phrase_match (normalize q) (map inj Endpoint.greeting_patterns)
  || any_in (normalize q) (map inj Endpoint.age_patterns).

Definition routing (q : ustr) : bool * Props.route * bool :=
  (relevance_shortcut q, route_of q, search_shortcut q).


End Wide.

(** * Properties *)

(** ** Facts about the text operations *)

Module TextFacts.

Import Props.

Lemma is_space_nl : is_space nl = true.
Proof. reflexivity. Qed.


Lemma lower_idem (c : ascii) : char_lower (char_lower c) = char_lower c.
Proof. destruct c as [[] [] [] [] [] [] [] []]; vm_compute; congruence. Qed.

Lemma eqb_nl_space (c : ascii) : Ascii.eqb c nl = true -> is_space c = true.
Proof. intros H. apply Ascii.eqb_eq in H. subst c. reflexivity. Qed.

Lemma lstrip_length (s : str) : length (lstrip s) <= length s.
Proof.
  induction s as [|c s IH]; simpl; [lia|].
  destruct (is_space c); simpl; lia.
Qed.

Lemma rstrip_length (s : str) : length (rstrip s) <= length s.
Proof.
  unfold rstrip. rewrite length_rev.
  etransitivity; [apply lstrip_length|]. rewrite length_rev. lia.
Qed.

Lemma strip_length (s : str) : length (strip s) <= length s.
Proof.
  unfold strip. etransitivity; [apply rstrip_length|]. apply lstrip_length.
Qed.









Lemma head_ok_lstrip (s : str) : head_ok s -> lstrip s = s.
Proof. destruct s as [|c s]; simpl; [done|]. by intros ->. Qed.

Lemma lstrip_fixed (s : str) : s <> [] -> lstrip s = s -> head_ok s.
Proof.
  destruct s as [|c s]; [done|]. intros _. simpl.
  destruct (is_space c) eqn:Hc; [|done].
  intros H. pose proof (lstrip_length s) as Hl. rewrite H in Hl.
  simpl in Hl. lia.
Qed.

Lemma clean_strip (s : str) : clean s -> strip s = s.
Proof.
  intros [Hh Hl]. unfold strip, rstrip.
  rewrite (head_ok_lstrip s Hh), (head_ok_lstrip _ Hl).
  apply rev_involutive.
Qed.

Lemma strip_fixed_clean (s : str) : s <> [] -> strip s = s -> clean s.
Proof.
  intros Hne Hs.
  assert (Hh : head_ok s).
  { apply lstrip_fixed; [done|].
    apply (f_equal (@length ascii)) in Hs as Hlen.
    destruct s as [|c s]; [done|]. simpl.
    destruct (is_space c) eqn:Hc; [|done]. exfalso.
    unfold strip in Hlen. simpl in Hlen. rewrite Hc in Hlen.
    pose proof (rstrip_length (lstrip s)). pose proof (lstrip_length s).
    simpl in Hlen. lia. }
  split; [done|].
  unfold strip in Hs. rewrite (head_ok_lstrip s Hh) in Hs.
  unfold rstrip in Hs. apply (f_equal (@rev ascii)) in Hs.
  rewrite rev_involutive in Hs.
  apply lstrip_fixed; [|done].
  intros Hr. apply (f_equal (@rev ascii)) in Hr.
  rewrite rev_involutive in Hr. done.
Qed.

Lemma head_ok_app (a b : str) : head_ok a -> head_ok (a ++ b).
Proof. destruct a; simpl; done. Qed.

Lemma clean_app (a m b : str) : clean a -> clean b -> clean (a ++ m ++ b).
Proof.
  intros [Ha _] [_ Hb]. split; [by apply head_ok_app|].
  rewrite !rev_app_distr, <- app_assoc. by apply head_ok_app.
Qed.

Lemma clean_nonempty (s : str) : clean s -> s <> [].
Proof. intros [H _] ->. done. Qed.

End TextFacts.

(** ** Facts about [split_blank] *)

Module SplitFacts.

Import Props TextFacts.

Lemma split_blank_sep (s : str) :
  split_blank (nl :: nl :: s) = [] :: split_blank s.
Proof. reflexivity. Qed.

Lemma split_blank_char (c : ascii) (s : str) :
  starts_blank (c :: s) = false ->
  split_blank (c :: s) = cons_head c (split_blank s).
Proof.
  destruct s as [|d s]; [done|]. simpl. by intros ->.
Qed.

Lemma starts_blank_true (s : str) :
  starts_blank s = true -> exists t, s = nl :: nl :: t.
Proof.
  destruct s as [|c [|d t]]; simpl; try discriminate.
  intros H. apply andb_true_iff in H as [Hc Hd].
  apply Ascii.eqb_eq in Hc, Hd. subst. by exists t.
Qed.

(** Induction along the way [split_blank] scans its argument. *)
Lemma split_blank_ind (P : str -> Prop) :
  P [] ->
  (forall s, P s -> P (nl :: nl :: s)) ->
  (forall c s, starts_blank (c :: s) = false -> P s -> P (c :: s)) ->
  forall s, P s.
Proof.
  intros Hnil Hsep Hchar s.
  assert (H : forall n (t : str), length t <= n -> P t).
  { induction n as [|n IH]; intros t Hlen.
    - destruct t; [done | simpl in Hlen; lia].
    - destruct t as [|c t]; [done|].
      destruct (starts_blank (c :: t)) eqn:Hb.
      + apply starts_blank_true in Hb as [u Hu]. rewrite Hu.
        apply Hsep, IH. injection Hu as -> ->. simpl in Hlen. lia.
      + apply Hchar; [done|]. apply IH. simpl in Hlen. lia. }
  by apply (H (length s)).
Qed.

Lemma split_blank_nonempty (s : str) : split_blank s <> [].
Proof.
  induction s as [| s IH | c s Hb IH] using split_blank_ind; [done..|].
  rewrite split_blank_char by done.
  destruct (split_blank s); done.
Qed.

Lemma cons_head_app (c : ascii) (ps qs : list str) :
  ps <> [] -> cons_head c (ps ++ qs) = cons_head c ps ++ qs.
Proof. destruct ps; done. Qed.

(** The first piece starts with the first character of the string. *)
Lemma split_blank_head (s : str) (d : ascii) (p : str) (ps : list str) :
  split_blank s = (d :: p) :: ps -> exists t, s = d :: t.
Proof.
  destruct s as [|c s]; [done|].
  destruct (starts_blank (c :: s)) eqn:Hb.
  - apply starts_blank_true in Hb as [u ->]. done.
  - rewrite split_blank_char by done.
    destruct (split_blank s); simpl; intros [= -> _]; by eexists.
Qed.

(** No piece contains the separator: splitting a piece gives the piece. *)
Lemma split_blank_pieces (s : str) :
  Forall (fun p => split_blank p = [p]) (split_blank s).
Proof.
  induction s as [| s IH | c s Hb IH] using split_blank_ind.
  - by constructor.
  - rewrite split_blank_sep. by constructor.
  - rewrite split_blank_char by done.
    destruct (split_blank s) as [|p ps] eqn:Hs.
    { by apply split_blank_nonempty in Hs. }
    simpl. inversion IH as [|? ? Hp Hps]; subst.
    constructor; [|done].
    rewrite split_blank_char; [by rewrite Hp|].
    destruct p as [|d p]; [done|].
    apply split_blank_head in Hs as [t ->].
    revert Hb. simpl. destruct t, p; simpl; try done.
    all: destruct (Ascii.eqb c nl), (Ascii.eqb d nl); done.
Qed.

(** A separator placed after a string that does not end in whitespace is
    found by the scan exactly there. *)
Lemma split_blank_app (a t : str) :
  head_ok (rev a) ->
  split_blank (a ++ Chunker.blank ++ t) = split_blank a ++ split_blank t.
Proof.
  induction a as [| a IH | c a Hb IH] using split_blank_ind.
  - done.
  - intros Hl. destruct a as [|x a].
    { simpl in Hl. done. }
    change ((nl :: nl :: x :: a) ++ Chunker.blank ++ t)
      with (nl :: nl :: ((x :: a) ++ Chunker.blank ++ t)).
    rewrite !split_blank_sep, IH; [done|].
    revert Hl. change (nl :: nl :: x :: a) with ([nl; nl] ++ x :: a).
    rewrite rev_app_distr. destruct (rev (x :: a)) eqn:Hr; [|done].
    apply (f_equal (@length ascii)) in Hr. rewrite length_rev in Hr. done.
  - intros Hl. destruct a as [|x a].
    + simpl in Hl.
      assert (Hc : Ascii.eqb c nl = false).
      { destruct (Ascii.eqb c nl) eqn:Hc; [|done].
        apply eqb_nl_space in Hc. congruence. }
      simpl. by rewrite Hc.
    + change ((c :: x :: a) ++ Chunker.blank ++ t)
        with (c :: ((x :: a) ++ Chunker.blank ++ t)).
      rewrite (split_blank_char c (x :: a)) by done.
      rewrite split_blank_char by (revert Hb; simpl; done).
      rewrite IH; [by apply cons_head_app, split_blank_nonempty|].
      revert Hl. simpl. destruct (rev a ++ [x]) eqn:Hr; [|done].
      by destruct (rev a).
Qed.

End SplitFacts.

(** ** The chunker *)

Module ChunkerFacts.

Import Props TextFacts SplitFacts Chunker.

Lemma chunk_content_finish (content : str) :
  chunk_content content = finish (chunk_loop (split_blank content) [] []).
Proof. reflexivity. Qed.

Lemma chunk_loop_bound (bound : nat) (paragraphs : list str) :
  chunk_size + 2 <= bound ->
  Forall (fun p => length p <= chunk_size) paragraphs ->
  forall current_chunk chunks,
    length current_chunk <= bound ->
    Forall (fun c => length c <= bound) chunks ->
    Forall (fun c => length c <= bound)
      (finish (chunk_loop paragraphs current_chunk chunks)).
Proof.
  intros Hb Hps. induction Hps as [|p ps Hp Hps IH]; intros cur chunks Hc Hcs.
  - simpl. destruct (is_empty cur); [done|].
    apply Forall_app. split; [done|]. constructor; [|done].
    pose proof (strip_length cur). lia.
  - simpl. destruct (Nat.ltb_spec chunk_size (length cur + length p)) as [Hlt|Hle];
      destruct cur as [|x cur]; simpl.
    + apply IH; [lia | done].
    + apply IH; [lia|]. apply Forall_app. split; [done|]. constructor; [|done].
      pose proof (strip_length (x :: cur)). simpl in *.
      unfold chunk_size in *. lia.
    + apply IH; [lia | done].
    + apply IH; [|done]. simpl in *. rewrite length_app. simpl.
      unfold chunk_size in *. lia.
Qed.

Lemma clean_is_empty (s : str) : clean s -> is_empty s = false.
Proof. destruct s; [by intros [[] _] | done]. Qed.

Lemma chunk_loop_paragraphs (paragraphs : list str) :
  Forall good paragraphs ->
  forall current_chunk chunks,
    current_chunk = [] \/ clean current_chunk ->
    paragraphs_of (finish (chunk_loop paragraphs current_chunk chunks))
    = paragraphs_of chunks
      ++ (if is_empty current_chunk then [] else split_blank current_chunk)
      ++ paragraphs.
Proof.
  unfold paragraphs_of.
  intros Hps. induction Hps as [|p ps [Hp Hsp] Hps IH]; intros cur chunks Hcur.
  - cbn [chunk_loop finish]. destruct Hcur as [-> | Hc].
    { cbn. by rewrite app_nil_r. }
    rewrite (clean_is_empty cur Hc).
    rewrite map_app, concat_app. cbn [map concat].
    rewrite clean_strip by done. by rewrite !app_nil_r.
  - cbn [chunk_loop]. destruct Hcur as [-> | Hc].
    { cbn [is_empty negb]. rewrite andb_false_r.
      rewrite IH by (by right).
      rewrite (clean_is_empty p Hp), Hsp. done. }
    rewrite (clean_is_empty cur Hc). cbn [negb]. rewrite andb_true_r.
    destruct (chunk_size <? length cur + length p)%nat.
    + rewrite IH by (by right).
      rewrite map_app, concat_app. cbn [map concat].
      rewrite clean_strip by done.
      rewrite (clean_is_empty p Hp), Hsp, app_nil_r, <- !app_assoc. done.
    + rewrite IH by (right; by apply clean_app).
      rewrite clean_is_empty by (by apply clean_app).
      rewrite split_blank_app by apply Hc.
      rewrite Hsp, <- !app_assoc. done.
Qed.

End ChunkerFacts.

Module ChunkerClaims.

Import Props Samples TextFacts SplitFacts Chunker ChunkerFacts.

(** C6, as stated, fails: two paragraphs of 500 characters are joined, with
    the separator between them, into one chunk of 1002 characters. *)
Lemma chunk_within_1000_fails :
  Forall (fun p => length p <= 1000) (split_blank two_halves)
  /\ ~ Forall (fun c => length c <= 1000) (chunk_content two_halves).
Proof.
  split.
  - apply (bool_decide_unpack _). vm_compute. exact I.
  - apply (bool_decide_unpack _). vm_compute. exact I.
Qed.

(** C6, amended: when every paragraph of the content has at most 1000
    characters, every chunk has at most 1002 characters (two paragraphs whose
    lengths add up to at most 1000 are joined by the two-character
    separator). *)
Theorem chunk_length_bound (content : str) :
  Forall (fun p => length p <= 1000) (split_blank content) ->
  Forall (fun c => length c <= 1002) (chunk_content content).
Proof.
  intros H. rewrite chunk_content_finish.
  apply chunk_loop_bound; [done | done | simpl; lia | done].
Qed.

Lemma chunk_length_bound_witness :
  Forall (fun c => length c <= 1002) (chunk_content two_halves).
Proof.
  apply (chunk_length_bound two_halves).
  apply (bool_decide_unpack _). vm_compute. exact I.
Defined.

(** C7: when every paragraph of the content is non-empty and has no leading
    or trailing whitespace, the chunks, split back on the blank-line separator
    and concatenated, are exactly the paragraphs of the content in their
    order. *)
Theorem chunks_keep_paragraphs (content : str) :
  Forall (fun p => p <> [] /\ strip p = p) (split_blank content) ->
  paragraphs_of (chunk_content content) = split_blank content.
Proof.
  intros H. rewrite chunk_content_finish.
  rewrite chunk_loop_paragraphs; [done | | by left].
  pose proof (split_blank_pieces content) as Hp.
  revert H Hp. generalize (split_blank content) as ps.
  induction ps as [|p ps IH]; intros H Hp; [done|].
  inversion H as [|? ? [Hne Hs] H']; inversion Hp as [|? ? Hsp Hp']; subst.
  constructor; [|by apply IH].
  split; [by apply strip_fixed_clean | done].
Qed.

Lemma chunks_keep_paragraphs_witness :
  paragraphs_of (chunk_content three_paragraphs)
  = split_blank three_paragraphs.
Proof.
  apply (chunks_keep_paragraphs three_paragraphs).
  vm_compute. repeat constructor; discriminate.
Defined.

End ChunkerClaims.

(** ** The matchers, read as propositions *)

Module MatcherFacts.

Import Props TextFacts.

Lemma str_eqb_spec (a b : str) : str_eqb a b = true <-> a = b.
Proof.
  revert b. induction a as [|x a IH]; intros [|y b]; simpl; try done.
  rewrite andb_true_iff, Ascii.eqb_eq, IH. split.
  - by intros [-> ->].
  - by intros [= -> ->].
Qed.

Lemma startswith_spec (s p : str) :
  startswith s p = true <-> exists t, s = p ++ t.
Proof.
  revert s. induction p as [|x p IH]; intros s; simpl.
  - split; [intros _; by exists s | done].
  - destruct s as [|y s].
    + split; [done | by intros [t Ht]].
    + rewrite andb_true_iff, Ascii.eqb_eq, IH. split.
      * intros [-> [t ->]]. by exists t.
      * intros [t [= -> ->]]. split; [done | by exists t].
Qed.

Lemma endswith_spec (s p : str) :
  endswith s p = true <-> exists t, s = t ++ p.
Proof.
  unfold endswith. rewrite startswith_spec. split.
  - intros [t Ht]. exists (rev t).
    apply (f_equal (@rev ascii)) in Ht.
    by rewrite rev_involutive, rev_app_distr, rev_involutive in Ht.
  - intros [t ->]. exists (rev t). by rewrite rev_app_distr.
Qed.

Lemma contains_spec (s p : str) :
  contains s p = true <-> exists a b, s = a ++ p ++ b.
Proof.
  induction s as [|c s IH]; simpl.
  - rewrite orb_false_r, startswith_spec. split.
    + intros [t Ht]. by exists [], t.
    + intros [a [b Hab]]. destruct a; [by exists b|done].
  - rewrite orb_true_iff, startswith_spec, IH. split.
    + intros [[t Ht] | [a [b ->]]]; [by exists [], t|].
      by exists (c :: a), b.
    + intros [[|x a] [b Hab]]; [left; by exists b|].
      right. injection Hab as -> ->. by exists a, b.
Qed.

Lemma phrase_match_spec (query_lower : str) (patterns : list str) :
  phrase_match query_lower patterns = true <-> greets query_lower patterns.
Proof.
  unfold phrase_match, greets, mem.
  rewrite orb_true_iff, !existsb_exists. split.
  - intros [[g [Hg Heq]] | [g [Hg H]]].
    + apply str_eqb_spec in Heq. exists g. auto.
    + exists g. split; [done|].
      rewrite !orb_true_iff in H. destruct H as [[H | H] | H].
      * apply startswith_spec in H as [t ->]. right; left. exists t.
        by rewrite <- app_assoc.
      * apply endswith_spec in H as [t ->]. right; right. by exists t.
      * apply str_eqb_spec in H. auto.
  - intros [g [Hg H]]. right. exists g. split; [done|].
    rewrite !orb_true_iff. destruct H as [-> | [[t ->] | [t ->]]].
    + right. by apply str_eqb_spec.
    + left; left. apply startswith_spec. exists t. by rewrite <- app_assoc.
    + left; right. apply endswith_spec. by exists t.
Qed.

Lemma any_in_spec (query_lower : str) (patterns : list str) :
  any_in query_lower patterns = true <-> mentions query_lower patterns.
Proof.
  unfold any_in, mentions. rewrite existsb_exists.
  split; intros [p [Hp H]]; exists p; (split; [done|]);
    by apply contains_spec.
Qed.

(** A longer list of phrases, or of patterns, matches at least as much. *)
Lemma phrase_match_mono (query_lower : str) (ps qs : list str) :
  (forall g, In g ps -> In g qs) ->
  phrase_match query_lower ps = true -> phrase_match query_lower qs = true.
Proof.
  rewrite !phrase_match_spec. intros Hsub [g [Hg H]]. exists g. auto.
Qed.

Lemma any_in_mono (query_lower : str) (ps qs : list str) :
  (forall p, In p ps -> In p qs) ->
  any_in query_lower ps = true -> any_in query_lower qs = true.
Proof.
  rewrite !any_in_spec. intros Hsub [p [Hp H]]. exists p. auto.
Qed.

Lemma phrase_match_app (query_lower : str) (ps qs : list str) :
  phrase_match query_lower (ps ++ qs)
  = phrase_match query_lower ps || phrase_match query_lower qs.
Proof.
  unfold phrase_match, mem. rewrite !existsb_app.
  repeat match goal with |- context [existsb ?f ?l] =>
    destruct (existsb f l); simpl; try done end.
Qed.


End MatcherFacts.

(** ** What the routing functions compute *)

Module RouterFacts.

Import Props TextFacts MatcherFacts.

Lemma relevance_run (E : env) (q : str) (w : world) :
  Relevance.check_query_relevance E q w
  = if relevance_shortcut q then (Ok true, w)
    else (Ok (verdict (llm_complete E (RelevancePrompt q))),
          logged w (LlmCall (RelevancePrompt q))).
Proof.
  unfold Relevance.check_query_relevance, relevance_shortcut, try_catch.
  destruct (phrase_match _ Relevance.greeting_patterns); [done|].
  destruct (any_in _ Relevance.contextual_patterns); [done|].
  unfold chat, bind, emit, of_option, ret, raise, logged, verdict. simpl.
  by destruct (llm_complete E (RelevancePrompt q)).
Qed.

Lemma summarize_run (E : env) (q : str) (docs : list str) (w : world) :
  Summarize.summarize_search_results E q docs w
  = match route_of q with
    | Greeting => (Ok Summarize.greeting_reply, w)
    | Farewell => (Ok Summarize.farewell_reply, w)
    | Acknowledgment => (Ok Summarize.acknowledgment_reply, w)
    | Age =>
        (Ok (Summarize.age_reply (Summarize.age_on (datetime_now E))), w)
    | Retrieval =>
        if no_documents docs then (Ok Summarize.no_documents_reply, w)
        else (Ok (summary_text (llm_complete E (summary_prompt q docs))),
              logged w (LlmCall (summary_prompt q docs)))
    end.
Proof.
  unfold Summarize.summarize_search_results, route_of, try_catch.
  destruct (phrase_match _ Summarize.greeting_patterns); [done|].
  destruct (phrase_match _ Summarize.farewell_patterns); [done|].
  destruct (phrase_match _ Summarize.acknowledgment_patterns); [done|].
  destruct (any_in _ Summarize.age_patterns); [done|].
  fold (no_documents docs). destruct (no_documents docs); [done|].
  unfold chat, bind, emit, of_option, ret, raise, logged, summary_text,
    summary_prompt. simpl.
  by destruct (llm_complete E _).
Qed.

(** The model is asked about relevance exactly when neither pattern test of
    [check_query_relevance] succeeds. *)
Lemma relevance_model_call (E : env) (q : str) (w : world) :
  log (snd (Relevance.check_query_relevance E q w))
  = log w ++ (if relevance_shortcut q then []
              else [LlmCall (RelevancePrompt q)]).
Proof.
  rewrite relevance_run. destruct (relevance_shortcut q); simpl; [|done].
  by rewrite app_nil_r.
Qed.

(** The summarizer always returns a text and leaves the collection alone. *)
Lemma summarize_total (E : env) (q : str) (docs : list str) (w : world) :
  exists text w',
    Summarize.summarize_search_results E q docs w = (Ok text, w')
    /\ store w' = store w.
Proof.
  rewrite summarize_run.
  destruct (route_of q); try by eexists _, _.
  destruct (no_documents docs); by eexists _, _.
Qed.

(** Without documents the summarizer does not call the model. *)
Lemma summarize_no_documents (E : env) (q : str) (w : world) :
  exists text, Summarize.summarize_search_results E q [] w = (Ok text, w).
Proof.
  rewrite summarize_run. destruct (route_of q); by eexists.
Qed.

Lemma search_patterns_split :
  Endpoint.greeting_patterns
  = Summarize.greeting_patterns ++ Summarize.farewell_patterns
    ++ Summarize.acknowledgment_patterns.
Proof. reflexivity. Qed.

Lemma greeting_not_age (age : Z) :
  Summarize.greeting_reply <> Summarize.age_reply age.
Proof. unfold Summarize.greeting_reply, Summarize.age_reply. simpl. discriminate. Qed.

End RouterFacts.

(** ** The relevance check and the summarizer *)

Module RouterClaims.

Import Props Samples TextFacts MatcherFacts RouterFacts.

(** C2 fails on the code at the query "alright": it matches the
    acknowledgment matcher of [summarize_search_results] and the shortcut
    list of [search_documents], but [check_query_relevance] has neither
    "alright" nor "got it" in its list, so the model is asked, and when the
    model answers NO the query is judged not relevant. *)
Theorem alright_reaches_the_model :
  let q := lit "alright" in
  phrase_match (normalize q) Summarize.acknowledgment_patterns = true
  /\ phrase_match (normalize q) Endpoint.greeting_patterns = true
  /\ (forall E w,
        Relevance.check_query_relevance E q w
        = (Ok (verdict (llm_complete E (RelevancePrompt q))),
           logged w (LlmCall (RelevancePrompt q))))
  /\ Relevance.check_query_relevance (env_of (Some (lit "NO"))) q empty_world
     = (Ok false,
        {| store := ∅; log := [LlmCall (RelevancePrompt q)] |}).
Proof.
  cbv zeta. split; [reflexivity|]. split; [reflexivity|]. split.
  - intros E w. by rewrite relevance_run.
  - by rewrite relevance_run.
Qed.

(** C3: [summarize_search_results] tries greetings, then farewells, then
    acknowledgments, then the age patterns; a query that matches both a
    greeting and an age pattern gets the greeting reply, which is never the
    age answer. *)
Theorem summarize_priority (E : env) (q : str) (docs : list str) (w : world) :
  let ql := normalize q in
  let run := Summarize.summarize_search_results E q docs w in
  (phrase_match ql Summarize.greeting_patterns = true ->
   run = (Ok Summarize.greeting_reply, w))
  /\ (phrase_match ql Summarize.greeting_patterns = false ->
      phrase_match ql Summarize.farewell_patterns = true ->
      run = (Ok Summarize.farewell_reply, w))
  /\ (phrase_match ql Summarize.greeting_patterns = false ->
      phrase_match ql Summarize.farewell_patterns = false ->
      phrase_match ql Summarize.acknowledgment_patterns = true ->
      run = (Ok Summarize.acknowledgment_reply, w))
  /\ (phrase_match ql Summarize.greeting_patterns = false ->
      phrase_match ql Summarize.farewell_patterns = false ->
      phrase_match ql Summarize.acknowledgment_patterns = false ->
      any_in ql Summarize.age_patterns = true ->
      run = (Ok (Summarize.age_reply (Summarize.age_on (datetime_now E))), w))
  /\ (phrase_match ql Summarize.greeting_patterns = true ->
      any_in ql Summarize.age_patterns = true ->
      run = (Ok Summarize.greeting_reply, w)
      /\ forall age, fst run <> Ok (Summarize.age_reply age)).
Proof.
  cbv zeta. rewrite summarize_run. unfold route_of.
  split; [|split; [|split; [|split]]].
  - by intros ->.
  - by intros -> ->.
  - by intros -> -> ->.
  - by intros -> -> -> ->.
  - intros -> _. split; [done|].
    intros age H. cbn [fst] in H. apply (greeting_not_age age). congruence.
Qed.

Lemma summarize_priority_witness :
  let q := lit "Hi how old is he" in
  Summarize.summarize_search_results (env_of None) q [] empty_world
  = (Ok Summarize.greeting_reply, empty_world).
Proof.
  cbv zeta.
  apply (proj1 (summarize_priority (env_of None) (lit "Hi how old is he") []
                  empty_world)).
  reflexivity.
Defined.

(** C4: when the call to the model fails, [check_query_relevance] returns
    True. *)
Theorem relevance_defaults_to_true (E : env) (q : str) (w : world) :
  llm_complete E (RelevancePrompt q) = None ->
  fst (Relevance.check_query_relevance E q w) = Ok true.
Proof.
  intros H. rewrite relevance_run, H. by destruct (relevance_shortcut q).
Qed.

Lemma relevance_defaults_to_true_witness :
  relevance_shortcut (lit "What is the weather today?") = false
  /\ fst (Relevance.check_query_relevance (env_of None)
            (lit "What is the weather today?") empty_world) = Ok true.
Proof.
  split; [reflexivity|].
  apply (relevance_defaults_to_true (env_of None)). reflexivity.
Defined.

(** C5, as stated, fails: "hi how old is he" contains an age pattern, and
    the reply is the greeting, not the age. *)
Lemma age_query_gets_greeting :
  let q := lit "hi how old is he" in
  let E := env_of None in
  any_in (normalize q) Summarize.age_patterns = true
  /\ fst (Summarize.summarize_search_results E q [] empty_world)
     <> Ok (Summarize.age_reply (Summarize.age_on (datetime_now E))).
Proof.
  cbv zeta. split; [reflexivity|].
  rewrite summarize_run.
  change (route_of (lit "hi how old is he")) with Greeting.
  cbn [fst]. intros H.
  apply (greeting_not_age (Summarize.age_on (datetime_now (env_of None)))).
  congruence.
Qed.

(** C5, amended: for a query that contains an age pattern and matches none
    of the greeting, farewell and acknowledgment matchers, the reply states
    the age: the current year minus 1979, minus one when the current month
    and day come before April 10. *)
Theorem age_answer (E : env) (q : str) (docs : list str) (w : world) :
  let ql := normalize q in
  let today := datetime_now E in
  mentions ql Summarize.age_patterns ->
  ~ greets ql Summarize.greeting_patterns ->
  ~ greets ql Summarize.farewell_patterns ->
  ~ greets ql Summarize.acknowledgment_patterns ->
  exists age : Z,
    Summarize.summarize_search_results E q docs w
    = (Ok (lit "Sai Sai Kham Leng is currently " ++ of_Z age
           ++ lit " years old. He was born on April 10, 1979."), w)
    /\ age = (if (month today <? 4) || (month today =? 4) && (day today <? 10)
              then year today - 1979 - 1 else year today - 1979)%Z.
Proof.
  cbv zeta. rewrite <- any_in_spec, <- !phrase_match_spec.
  intros Ha Hg Hf Hk. apply not_true_is_false in Hg, Hf, Hk.
  exists (Summarize.age_on (datetime_now E)).
  rewrite summarize_run. unfold route_of.
  rewrite Hg, Hf, Hk, Ha. done.
Qed.

Lemma age_answer_witness :
  Summarize.summarize_search_results (env_of None) (lit "So how old is he?")
    [] empty_world
  = (Ok (lit "Sai Sai Kham Leng is currently 44 years old. He was born on April 10, 1979."),
     empty_world).
Proof.
  destruct (age_answer (env_of None) (lit "So how old is he?") [] empty_world)
    as [age [Hrun Hage]].
  - apply any_in_spec. reflexivity.
  - rewrite <- phrase_match_spec. by vm_compute.
  - rewrite <- phrase_match_spec. by vm_compute.
  - rewrite <- phrase_match_spec. by vm_compute.
  - rewrite Hrun, Hage. reflexivity.
Defined.

End RouterClaims.

(** ** The [/search/] endpoint *)

Module SearchClaims.

Import Props Samples TextFacts MatcherFacts RouterFacts Endpoint.

Lemma validate_metadatas_length (ms : list (option metadata))
    (ms' : list metadata) :
  validate_metadatas ms = Some ms' -> length ms' = length ms.
Proof.
  revert ms'. induction ms as [|[m|] ms IH]; intros ms'; simpl.
  - by intros [= <-].
  - destruct (validate_metadatas ms) as [l|]; [|done].
    intros [= <-]. simpl. f_equal. by apply IH.
  - done.
Qed.

Lemma relevance_world (E : env) (q : str) (w : world) :
  exists b w1,
    Relevance.check_query_relevance E q w = (Ok b, w1)
    /\ store w1 = store w
    /\ forall t n, In (StoreQuery t n) (log w1) -> In (StoreQuery t n) (log w).
Proof.
  rewrite relevance_run. destruct (relevance_shortcut q).
  - by eexists _, _.
  - eexists _, _. split; [done|]. split; [done|].
    intros t n H. simpl in H. apply in_app_or in H as [H | [H | []]]; done.
Qed.

(** C1: when the normalised query is a greeting phrase, starts with one
    followed by a space, ends with a space followed by one, or contains an
    age pattern, and the relevance check returns True, the endpoint answers
    with empty result lists, [is_relevant] true and a summary, and sends no
    query to the vector store. *)
Theorem search_shortcut_skips_retrieval (E : env) (request : QueryRequest)
    (w : world) :
  let ql := normalize (query request) in
  greets ql greeting_patterns \/ mentions ql age_patterns ->
  fst (Relevance.check_query_relevance E (query request) w) = Ok true ->
  exists text w',
    search_documents E request w
    = (Ok {| documents := []; metadatas := []; distances := []; ids := [];
             summary := Some text; is_relevant := true; message := None |},
       w')
    /\ forall t n, In (StoreQuery t n) (log w') -> In (StoreQuery t n) (log w).
Proof.
  cbv zeta. rewrite <- phrase_match_spec, <- any_in_spec, <- orb_true_iff.
  intros Hs Hrel.
  destruct (relevance_world E (query request) w) as (b & w1 & Hrun & _ & Hlog).
  rewrite Hrun in Hrel. injection Hrel as ->.
  destruct (summarize_no_documents E (query request) w1) as [text Ht].
  exists text, w1. split; [|done].
  unfold search_documents, try_catch, bind.
  rewrite Hrun. cbn [negb]. cbv zeta. rewrite Hs, Ht. done.
Qed.

Lemma search_shortcut_skips_retrieval_witness :
  exists text w',
    search_documents (env_of (Some (lit "YES")))
      {| query := lit " Got it "; n_results := 5 |} empty_world
    = (Ok {| documents := []; metadatas := []; distances := []; ids := [];
             summary := Some text; is_relevant := true; message := None |},
       w')
    /\ forall t n,
         In (StoreQuery t n) (log w') -> In (StoreQuery t n) (log empty_world).
Proof.
  apply (search_shortcut_skips_retrieval (env_of (Some (lit "YES")))
           {| query := lit " Got it "; n_results := 5 |} empty_world).
  - left. apply phrase_match_spec. reflexivity.
  - reflexivity.
Defined.

(** C9: in every response of the endpoint the four result lists have the
    same length (given that the vector store returns four lists of the same
    length), and the summary is None exactly when [is_relevant] is False. *)
Theorem search_response_invariant (E : env) (request : QueryRequest)
    (w w' : world) (response : QueryResponse) :
  (forall r,
     collection_query E (store w) (query request) (n_results request) = Some r
     -> aligned r) ->
  search_documents E request w = (Ok response, w') ->
  length (documents response) = length (metadatas response)
  /\ length (metadatas response) = length (distances response)
  /\ length (distances response) = length (ids response)
  /\ (summary response = None <-> is_relevant response = false).
Proof.
  intros Hstore.
  destruct (relevance_world E (query request) w) as (b & w1 & Hrun & Hst & _).
  unfold search_documents, try_catch, bind. rewrite Hrun.
  destruct b; cbn [negb]; cbv zeta.
  2: { intros [= <- _]. simpl. done. }
  destruct (_ || _).
  { destruct (summarize_no_documents E (query request) w1) as [text ->].
    intros [= <- _]. simpl. done. }
  unfold collection_query_call, bind, emit. simpl. rewrite Hst.
  destruct (collection_query E (store w) (query request) (n_results request))
    as [r|] eqn:Hq; [|done].
  destruct (Hstore r eq_refl) as (H1 & H2 & H3).
  case_bool_decide.
  { intros [= <- _]. simpl. done. }
  match goal with
  | |- context [Summarize.summarize_search_results E ?q ?d ?v] =>
      destruct (summarize_total E q d v) as (text & w2 & -> & _)
  end.
  unfold of_option.
  destruct (validate_metadatas (qr_metadatas r)) as [ms|] eqn:Hv; [|done].
  apply validate_metadatas_length in Hv.
  intros [= <- _]. simpl. repeat split; try congruence; done.
Qed.

Lemma search_response_invariant_witness :
  length (documents more_response) = length (metadatas more_response)
  /\ length (metadatas more_response) = length (distances more_response)
  /\ length (distances more_response) = length (ids more_response)
  /\ (summary more_response = None <-> is_relevant more_response = false).
Proof.
  apply (search_response_invariant env_one_hit more_request empty_world
           (snd (search_documents env_one_hit more_request empty_world))).
  - intros r [= <-]. repeat split.
  - reflexivity.
Defined.

End SearchClaims.

(** ** Ingestion at startup *)

Module IngestClaims.

Import Props Samples RouterFacts Ingest.

Lemma collection_add_run (E : env) (id document : str) (m : metadata)
    (w : world) :
  collection_add E id document m w
  = match store w !! id with
    | Some _ =>
        if add_existing_raises E
        then (Raised StoreError, logged w (StoreAdd id))
        else (Ok tt, logged w (StoreAdd id))
    | None => (Ok tt, put id document m w)
    end.
Proof.
  unfold collection_add, bind, emit, logged, put. simpl.
  destruct (store w !! id); [|done]. by destruct (add_existing_raises E).
Qed.

Lemma chunk_id_not_document (i : nat) : chunk_id i <> document_id.
Proof.
  unfold chunk_id. intros H.
  rewrite <- (app_nil_r document_id) in H at 2.
  apply app_inv_head in H. discriminate H.
Qed.

(** Adding chunks never touches an entry that is already there, and never
    touches the entry of the full document. *)
Lemma add_chunks_keeps (E : env) (base : metadata) (total : nat)
    (chunks : list str) :
  forall i w r w',
    add_chunks E base total i chunks w = (r, w') ->
    store w' !! document_id = store w !! document_id
    /\ forall id, is_Some (store w !! id) -> is_Some (store w' !! id).
Proof.
  induction chunks as [|c rest IH]; intros i w r w'; simpl.
  - intros [= _ <-]. done.
  - unfold bind at 1. rewrite collection_add_run.
    destruct (store w !! chunk_id i) as [old|] eqn:Hold.
    + destruct (add_existing_raises E).
      * intros [= _ <-]. done.
      * intros H. apply IH in H as [Hd Hk]. done.
    + intros H. apply IH in H as [Hd Hk]. simpl in Hd, Hk. split.
      * rewrite Hd. apply lookup_insert_ne, chunk_id_not_document.
      * intros id Hid. apply Hk.
        destruct (decide (chunk_id i = id)) as [<-|Hne].
        -- rewrite lookup_insert_eq. by eexists.
        -- by rewrite lookup_insert_ne.
Qed.

(** A failed run of the loop happens only when an existing id is an error,
    and leaves the first chunk id in the collection. *)
Lemma add_chunks_raised (E : env) (base : metadata) (total i : nat)
    (chunks : list str) (w w' : world) (e : exn) :
  add_chunks E base total i chunks w = (Raised e, w') ->
  add_existing_raises E = true
  /\ chunks <> []
  /\ is_Some (store w' !! chunk_id i).
Proof.
  revert i w. induction chunks as [|c rest IH]; intros i w; simpl; [done|].
  unfold bind at 1. rewrite collection_add_run.
  destruct (store w !! chunk_id i) as [old|] eqn:Hold.
  - destruct (add_existing_raises E) eqn:Hr.
    + intros [= _ <-]. simpl. rewrite Hold. by eauto.
    + intros H. apply IH in H as (Hr' & _ & _). congruence.
  - intros H. pose proof H as H'. apply IH in H as (Hr & _ & _).
    apply add_chunks_keeps in H' as [_ Hk].
    split; [done|]. split; [done|]. apply Hk. simpl.
    rewrite lookup_insert_eq. by eexists.
Qed.

(** With the first chunk id already present and existing ids an error, the
    loop stops at once. *)
Lemma add_chunks_stops (E : env) (base : metadata) (total i : nat)
    (chunks : list str) (w : world) :
  add_existing_raises E = true ->
  chunks <> [] ->
  is_Some (store w !! chunk_id i) ->
  exists w', add_chunks E base total i chunks w = (Raised StoreError, w')
             /\ store w' = store w.
Proof.
  intros Hr Hne [old Hold]. destruct chunks as [|c rest]; [done|]. simpl.
  unfold bind at 1. rewrite collection_add_run, Hold, Hr. by eexists.
Qed.

Lemma ingest_present (E : env) (w : world) :
  is_Some (store w !! document_id) ->
  check_and_ingest_wikipedia E w = (Ok tt, logged w (StoreGet document_id)).
Proof.
  intros H. unfold check_and_ingest_wikipedia, try_catch, bind, collection_get.
  unfold emit. simpl. rewrite decide_True by done. done.
Qed.

(** The run on a collection without the full document. *)
Lemma ingest_absent (E : env) (w : world) :
  store w !! document_id = None ->
  let w1 := logged (logged w (StoreGet document_id)) (Scrape wikipedia_url) in
  check_and_ingest_wikipedia E w
  = match scrape_wikipedia_page E wikipedia_url with
    | None => (Raised ScrapeError, w1)
    | Some wiki =>
        let chunks := Chunker.chunk_content (wd_content wiki) in
        match add_chunks E (wd_metadata wiki) (length chunks) 0 chunks w1 with
        | (Ok _, w2) =>
            match collection_add E document_id (wd_content wiki)
                    (wd_metadata wiki) w2 with
            | (Ok _, w3) => (Ok tt, w3)
            | (Raised e, w3) => (Raised e, w3)
            end
        | (Raised e, w2) => (Raised e, w2)
        end
    end.
Proof.
  intros H. cbv zeta.
  unfold check_and_ingest_wikipedia, try_catch, bind, collection_get, scrape.
  unfold emit, bind, of_option, ret, raise, logged. simpl.
  rewrite decide_False by (rewrite H; by intros [? ?]).
  simpl. destruct (scrape_wikipedia_page E wikipedia_url) as [wiki|]; [|done].
  destruct (add_chunks _ _ _ _ _ _) as [[[]|e] w2]; [|done].
  destruct (collection_add _ _ _ _ _) as [[[]|e] w3]; done.
Qed.

(** C10: when the collection already holds the document
    "sai_sai_kham_leng_wiki", [check_and_ingest_wikipedia] returns after the
    lookup: nothing is scraped, nothing is added, the collection is
    unchanged.  Hence a second run in a row leaves the collection as the
    first run left it. *)
Theorem ingest_idempotent (E : env) (w : world) :
  (is_Some (store w !! document_id) ->
   exists w',
     check_and_ingest_wikipedia E w = (Ok tt, w')
     /\ store w' = store w
     /\ log w' = log w ++ [StoreGet document_id])
  /\ store (snd (check_and_ingest_wikipedia E
                   (snd (check_and_ingest_wikipedia E w))))
     = store (snd (check_and_ingest_wikipedia E w)).
Proof.
  split.
  { intros H. eexists. split; [by apply ingest_present|]. done. }
  assert (Hskip : forall v, is_Some (store v !! document_id) ->
            store (snd (check_and_ingest_wikipedia E v)) = store v).
  { intros v Hv. by rewrite ingest_present. }
  destruct (store w !! document_id) as [d|] eqn:Hd.
  { assert (Hp : is_Some (store w !! document_id)) by (by exists d).
    rewrite (Hskip w Hp), (ingest_present E w Hp).
    cbn [snd]. rewrite Hskip; [done | exact Hp]. }
  rewrite (ingest_absent E w Hd). cbv zeta.
  destruct (scrape_wikipedia_page E wikipedia_url) as [wiki|] eqn:Hs.
  2: { simpl. rewrite ingest_absent by done. by rewrite Hs. }
  destruct (add_chunks _ _ _ _ _ _) as [[[]|e] w2] eqn:Hadd.
  - pose proof Hadd as Hk. apply add_chunks_keeps in Hk as [Hdoc _].
    simpl in Hdoc. rewrite collection_add_run, Hdoc, Hd.
    apply Hskip. simpl. rewrite lookup_insert_eq. by eexists.
  - pose proof Hadd as Hk. apply add_chunks_keeps in Hk as [Hdoc _].
    simpl in Hdoc. apply add_chunks_raised in Hadd as (Hr & Hne & Hc).
    cbn [snd]. rewrite ingest_absent by (by rewrite Hdoc). cbv zeta.
    rewrite Hs.
    match goal with
    | |- context [add_chunks E ?b ?t 0 ?cs ?v] =>
        destruct (add_chunks_stops E b t 0 cs v Hr Hne) as (w3 & -> & Hw3);
          [exact Hc | exact Hw3]
    end.
Qed.

Lemma ingest_idempotent_witness :
  exists w',
    check_and_ingest_wikipedia (env_of None) ingested_world = (Ok tt, w')
    /\ store w' = store ingested_world
    /\ log w' = log ingested_world ++ [StoreGet document_id].
Proof.
  apply (proj1 (ingest_idempotent (env_of None) ingested_world)).
  unfold ingested_world. simpl. rewrite lookup_singleton_eq. by eexists.
Defined.

End IngestClaims.

(** * Further properties of the code *)

(** ** More on the text operations *)

Module MoreTextFacts.

Import Props TextFacts.

Lemma lstrip_split (s : str) :
  exists ws, s = ws ++ lstrip s /\ all_space ws.
Proof.
  induction s as [|c s (ws & Hs & Hws)]; simpl.
  - by exists [].
  - destruct (is_space c) eqn:Hc.
    + exists (c :: ws). split; [simpl; congruence|].
      unfold all_space in *. simpl. by rewrite Hc.
    + by exists [].
Qed.

Lemma lstrip_head (s : str) : lstrip s = [] \/ head_ok (lstrip s).
Proof.
  induction s as [|c s IH]; simpl; [by left|].
  destruct (is_space c) eqn:Hc; [done|]. by right.
Qed.

(** What [strip] returns is empty or starts and ends with a character that
    is not whitespace. *)
Lemma strip_clean (s : str) : strip s = [] \/ clean (strip s).
Proof.
  unfold strip, rstrip.
  destruct (lstrip_head (rev (lstrip s))) as [Hu | Hu].
  { left. by rewrite Hu. }
  right. split; [|by rewrite rev_involutive].
  destruct (lstrip_split (rev (lstrip s))) as (ws & Hr & _).
  apply (f_equal (@rev ascii)) in Hr.
  rewrite rev_involutive, rev_app_distr in Hr.
  destruct (lstrip_head s) as [Ht | Ht].
  { rewrite Ht in Hu. done. }
  rewrite Hr in Ht.
  destruct (rev (lstrip (rev (lstrip s)))) as [|x r] eqn:Hx; [|done].
  apply (f_equal (@rev ascii)) in Hx. rewrite rev_involutive in Hx.
  rewrite Hx in Hu. done.
Qed.

Lemma strip_idem (s : str) : strip (strip s) = strip s.
Proof.
  destruct (strip_clean s) as [-> | H]; [done | by apply clean_strip].
Qed.

End MoreTextFacts.

(** ** More on the chunker *)

Module ChunkerMore.

Import Props MoreSamples TextFacts SplitFacts Chunker ChunkerFacts.
Import MoreTextFacts.

Lemma chunk_loop_bound_any (longest : nat) (paragraphs : list str) :
  Forall (fun p => length p <= longest) paragraphs ->
  forall current_chunk chunks,
    length current_chunk <= Nat.max longest 1002 ->
    Forall (fun c => length c <= Nat.max longest 1002) chunks ->
    Forall (fun c => length c <= Nat.max longest 1002)
      (finish (chunk_loop paragraphs current_chunk chunks)).
Proof.
  intros Hps. induction Hps as [|p ps Hp Hps IH]; intros cur chunks Hc Hcs.
  - cbn [chunk_loop finish]. destruct (is_empty cur); [done|].
    apply Forall_app. split; [done|]. constructor; [|done].
    pose proof (strip_length cur). lia.
  - cbn [chunk_loop].
    destruct (Nat.ltb_spec chunk_size (length cur + length p)) as [Hlt|Hle];
      destruct cur as [|x cur]; cbn [is_empty negb andb].
    + apply IH; [lia | done].
    + apply IH; [lia|]. apply Forall_app. split; [done|]. constructor; [|done].
      pose proof (strip_length (x :: cur)). lia.
    + apply IH; [lia | done].
    + apply IH; [|done]. rewrite !length_app. unfold chunk_size, blank in *.
      cbn [length] in *. lia.
Qed.

(** No chunk is longer than the longest paragraph of the content, or than
    1002 characters when that is more: paragraphs are only joined while the
    sum of their lengths stays within 1000, and a longer paragraph is kept
    whole. *)
Theorem chunk_length_general (content : str) (longest : nat) :
  Forall (fun p => length p <= longest) (split_blank content) ->
  Forall (fun c => length c <= Nat.max longest 1002) (chunk_content content).
Proof.
  intros H. rewrite chunk_content_finish.
  apply chunk_loop_bound_any; [done | simpl; lia | done].
Qed.

Lemma chunk_length_general_witness :
  Forall (fun c => length c <= Nat.max 1200 1002)
    (chunk_content long_and_short).
Proof.
  apply (chunk_length_general long_and_short 1200).
  apply (bool_decide_unpack _). vm_compute. exact I.
Defined.

Lemma chunk_loop_stripped (paragraphs : list str) :
  forall current_chunk chunks,
    Forall (fun c => strip c = c) chunks ->
    Forall (fun c => strip c = c)
      (finish (chunk_loop paragraphs current_chunk chunks)).
Proof.
  induction paragraphs as [|p ps IH]; intros cur chunks Hcs.
  - cbn [chunk_loop finish]. destruct (is_empty cur); [done|].
    apply Forall_app. split; [done|]. constructor; [|done]. apply strip_idem.
  - cbn [chunk_loop]. destruct (_ && _); apply IH; [|done].
    apply Forall_app. split; [done|]. constructor; [|done]. apply strip_idem.
Qed.

(** Every chunk is trimmed: stripping it again changes nothing. *)
Theorem chunks_are_stripped (content : str) :
  Forall (fun c => strip c = c) (chunk_content content).
Proof. rewrite chunk_content_finish. by apply chunk_loop_stripped. Qed.

Lemma chunk_loop_count (paragraphs : list str) :
  forall current_chunk chunks,
    length (finish (chunk_loop paragraphs current_chunk chunks))
    <= length chunks + length paragraphs
       + (if is_empty current_chunk then 0 else 1).
Proof.
  induction paragraphs as [|p ps IH]; intros cur chunks.
  - cbn [chunk_loop finish]. destruct (is_empty cur); [simpl; lia|].
    rewrite length_app. simpl. lia.
  - cbn [chunk_loop]. destruct (_ && _) eqn:Hc.
    + apply andb_true_iff in Hc as [_ Hc]. apply negb_true_iff in Hc.
      rewrite Hc. etransitivity; [apply IH|]. rewrite length_app.
      destruct (is_empty p); simpl; lia.
    + etransitivity; [apply IH|].
      destruct (is_empty cur), (is_empty _); simpl; lia.
Qed.

(** The chunker never makes more chunks than the content has paragraphs. *)
Theorem chunk_count_bound (content : str) :
  length (chunk_content content) <= length (split_blank content).
Proof.
  rewrite chunk_content_finish.
  etransitivity; [apply chunk_loop_count|]. simpl. lia.
Qed.

End ChunkerMore.

(** ** The text cleaning of the scraper *)

Module ScraperFacts.

Import Props MoreProps TextFacts SplitFacts Scraper.

Lemma collapse_spaced (b : bool) (s : str) :
  spaced_ok b (collapse_from b s) = true.
Proof.
  revert b. induction s as [|c s IH]; intros b; simpl; [done|].
  destruct (is_space c) eqn:Hc.
  - destruct b; [apply IH|]. simpl. apply IH.
  - simpl. rewrite Hc. apply IH.
Qed.

Lemma spaced_ok_char (b : bool) (s : str) (c : ascii) :
  spaced_ok b s = true -> In c s -> is_space c = true -> c = space.
Proof.
  revert b. induction s as [|x s IH]; intros b; simpl; [done|].
  destruct (is_space x) eqn:Hx.
  - rewrite !andb_true_iff. intros [[Hs _] Hr] [-> | Hin] Hc.
    + by apply Ascii.eqb_eq.
    + by apply (IH true).
  - intros Hr [-> | Hin] Hc; [congruence|]. by apply (IH false).
Qed.

Lemma spaced_ok_no_double (b : bool) (s a t : str) :
  spaced_ok b s = true -> s <> a ++ [space; space] ++ t.
Proof.
  revert b s. induction a as [|x a IH]; intros b s Hs ->.
  - simpl in Hs. apply andb_true_iff in Hs as [_ H]. discriminate H.
  - simpl in Hs. destruct (is_space x).
    + rewrite !andb_true_iff in Hs. destruct Hs as [_ Hs].
      by apply (IH true _ Hs).
    + by apply (IH false _ Hs).
Qed.

(** Every paragraph kept for the content is longer than 20 characters, its
    only whitespace characters are spaces, and no two spaces are adjacent. *)
Theorem content_parts_shape (raw_paragraphs : list str) :
  Forall (fun part =>
            20 < length part
            /\ (forall c, In c part -> is_space c = true -> c = space)
            /\ (forall a t, part <> a ++ [space; space] ++ t))
    (content_parts raw_paragraphs).
Proof.
  unfold content_parts. apply List.Forall_forall. intros part Hin.
  apply filter_In in Hin as [Hin Hsub].
  apply in_map_iff in Hin as [raw [<- _]].
  unfold substantial in Hsub. apply andb_true_iff in Hsub as [_ Hlen].
  apply Nat.ltb_lt in Hlen. split; [done|].
  unfold clean_paragraph, collapse_whitespace.
  pose proof (collapse_spaced false (remove_citations (strip raw))) as Hs.
  split.
  - intros c. by apply spaced_ok_char with false.
  - intros a t. by apply spaced_ok_no_double with false.
Qed.

Lemma split_blank_plain (p : str) : ~ In nl p -> split_blank p = [p].
Proof.
  induction p as [|c p IH]; [done|]. intros Hn.
  rewrite split_blank_char.
  - rewrite IH; [done|]. intros H. apply Hn. by right.
  - destruct p as [|d p]; [done|]. simpl.
    destruct (Ascii.eqb c nl) eqn:Hc; [|done].
    apply Ascii.eqb_eq in Hc. exfalso. apply Hn. by left.
Qed.

Lemma split_blank_after_plain (p t : str) :
  ~ In nl p -> split_blank (p ++ Chunker.blank ++ t) = p :: split_blank t.
Proof.
  induction p as [|c p IH]; [done|]. intros Hn.
  change ((c :: p) ++ Chunker.blank ++ t) with (c :: (p ++ Chunker.blank ++ t)).
  rewrite split_blank_char.
  - rewrite IH; [done|]. intros H. apply Hn. by right.
  - destruct (Ascii.eqb c nl) eqn:Hc.
    + apply Ascii.eqb_eq in Hc. exfalso. apply Hn. by left.
    + destruct p; simpl; by rewrite Hc.
Qed.

Lemma split_blank_join (parts : list str) :
  Forall (fun p => ~ In nl p) parts ->
  split_blank (join Chunker.blank parts)
  = match parts with [] => [[]] | _ => parts end.
Proof.
  induction 1 as [|p ps Hp Hps IH]; [done|].
  destruct ps as [|q ps].
  - simpl. by apply split_blank_plain.
  - change (join Chunker.blank (p :: q :: ps))
      with (p ++ Chunker.blank ++ join Chunker.blank (q :: ps)).
    rewrite split_blank_after_plain by done. by rewrite IH.
Qed.

(** Splitting the scraped content on the blank-line separator gives back the
    cleaned paragraphs, one piece each; a page without a paragraph worth
    keeping has the empty content, which splits into one empty piece. *)
Theorem content_splits_into_parts (url : str) (p : page) :
  split_blank (wd_content (wiki_of_page url p))
  = match content_parts (paragraphs p) with
    | [] => [[]]
    | parts => parts
    end.
Proof.
  unfold wiki_of_page. cbn [wd_content].
  rewrite split_blank_join.
  { by destruct (content_parts (paragraphs p)). }
  eapply Forall_impl; [apply content_parts_shape|].
  intros part (_ & Hsp & _) Hin. cbv beta in *.
  specialize (Hsp nl Hin eq_refl). discriminate Hsp.
Qed.

Lemma digits_no_bracket (ds : str) : all_digits ds -> ~ In lbracket ds.
Proof.
  unfold all_digits. rewrite forallb_forall. intros H Hin.
  apply H in Hin. discriminate Hin.
Qed.

Lemma remove_plain (a s : str) :
  ~ In lbracket a ->
  remove_citations_from None (a ++ s) = a ++ remove_citations_from None s.
Proof.
  induction a as [|c a IH]; [done|]. intros Hn. simpl.
  destruct (Ascii.eqb c lbracket) eqn:Hc.
  - apply Ascii.eqb_eq in Hc. exfalso. apply Hn. by left.
  - rewrite IH; [done|]. intros H. apply Hn. by right.
Qed.

Lemma remove_digits (d0 ds s : str) :
  all_digits ds ->
  remove_citations_from (Some d0) (ds ++ s)
  = remove_citations_from (Some (d0 ++ ds)) s.
Proof.
  unfold all_digits. revert d0. induction ds as [|c ds IH]; intros d0; simpl.
  - by rewrite app_nil_r.
  - intros H. apply andb_true_iff in H as [Hc Hds]. rewrite Hc.
    rewrite IH by done. by rewrite <- app_assoc.
Qed.

(** The longest run of digits at the start of a string. *)
Lemma digit_prefix (s : str) :
  exists ds rest,
    s = ds ++ rest /\ all_digits ds
    /\ match rest with [] => True | c :: _ => is_digit c = false end.
Proof.
  induction s as [|c s (ds & rest & -> & Hds & Hrest)].
  - by exists [], [].
  - destruct (is_digit c) eqn:Hc.
    + exists (c :: ds), rest. split; [done|]. split; [|done].
      unfold all_digits in *. simpl. by rewrite Hc.
    + by exists [], (c :: ds ++ rest).
Qed.

(** The citation markers are removed as [re.sub] does it, from the left: a
    marker at the scan position is dropped and the scan goes on after it; a
    character that does not start a marker is kept. *)
Theorem remove_citations_scan :
  remove_citations [] = []
  /\ (forall ds rest,
        all_digits ds -> ds <> [] ->
        remove_citations (lbracket :: ds ++ rbracket :: rest)
        = remove_citations rest)
  /\ (forall c s,
        no_marker_at (c :: s) ->
        remove_citations (c :: s) = c :: remove_citations s).
Proof.
  unfold remove_citations. split; [done|]. split.
  - intros ds rest Hds Hne. simpl.
    rewrite (remove_digits [] ds) by done. simpl.
    by destruct ds.
  - intros c s Hno. simpl.
    destruct (Ascii.eqb c lbracket) eqn:Hc; [|done].
    apply Ascii.eqb_eq in Hc. subst c.
    destruct (digit_prefix s) as (ds & rest & -> & Hds & Hrest).
    rewrite (remove_digits [] ds) by done. simpl.
    rewrite (remove_plain ds rest) by (by apply digits_no_bracket).
    destruct rest as [|c r]; simpl.
    { by rewrite app_nil_r. }
    rewrite Hrest.
    destruct (Ascii.eqb c rbracket && negb (is_empty ds)) eqn:Hm; [|done].
    apply andb_true_iff in Hm as [Hr Hne]. apply Ascii.eqb_eq in Hr. subst c.
    specialize (Hno ds r eq_refl Hds). subst ds. done.
Qed.

Lemma remove_citations_scan_witness :
  remove_citations (lit "[12] in 1979") = remove_citations (lit " in 1979").
Proof.
  apply (proj1 (proj2 remove_citations_scan) (lit "12") (lit " in 1979"));
    [reflexivity | discriminate].
Defined.

End ScraperFacts.

(** ** More on the search endpoint *)

Module SearchMore.

Import Props MoreProps TextFacts MatcherFacts RouterFacts Endpoint.

Lemma extend_nil (w : world) : extend w [] = w.
Proof. destruct w. unfold extend. simpl. by rewrite app_nil_r. Qed.

Lemma extend_extend (w : world) (a b : list event) :
  extend (extend w a) b = extend w (a ++ b).
Proof. unfold extend. simpl. by rewrite app_assoc. Qed.

Lemma relevance_run_events (E : env) (q : str) (w : world) :
  Relevance.check_query_relevance E q w
  = (Ok (relevant E q), extend w (relevance_events q)).
Proof.
  rewrite relevance_run. unfold relevant, relevance_events.
  destruct (relevance_shortcut q); [by rewrite extend_nil | done].
Qed.

Lemma summarize_run_events (E : env) (q : str) (docs : list str) (w : world) :
  Summarize.summarize_search_results E q docs w
  = (Ok (summary_of E q docs), extend w (summary_events q docs)).
Proof.
  rewrite summarize_run. unfold summary_of, summary_events.
  destruct (route_of q); rewrite ?extend_nil; try done.
  destruct (no_documents docs); by rewrite ?extend_nil.
Qed.

(** The whole of [search_documents], branch by branch. *)
Lemma search_run (E : env) (request : QueryRequest) (w : world) :
  let q := query request in
  let n := n_results request in
  let asked := relevance_events q in
  search_documents E request w
  = if negb (relevant E q) then (Ok not_relevant_response, extend w asked)
    else if search_shortcut q
    then (Ok (shortcut_response (summary_of E q [])), extend w asked)
    else
      match collection_query E (store w) q n with
      | None =>
          (Raised (HTTPException 400 StoreError),
           extend w (asked ++ [StoreQuery q n]))
      | Some r =>
          if bool_decide (qr_documents r = [])
          then (Ok nothing_found_response,
                extend w (asked ++ [StoreQuery q n]))
          else
            let w' :=
              extend w (asked ++ [StoreQuery q n]
                        ++ summary_events q (qr_documents r)) in
            match validate_metadatas (qr_metadatas r) with
            | Some ms =>
                (Ok (full_response r ms (summary_of E q (qr_documents r))),
                 w')
            | None => (Raised (HTTPException 400 ValidationError), w')
            end
      end.
Proof.
  cbv zeta. unfold search_documents, try_catch, bind.
  rewrite relevance_run_events.
  destruct (relevant E (query request)); cbn [negb]; [|done].
  fold (search_shortcut (query request)).
  destruct (search_shortcut (query request)).
  { rewrite summarize_run_events.
    assert (H : summary_events (query request) [] = []).
    { unfold summary_events. by destruct (route_of _). }
    rewrite H, extend_nil. done. }
  unfold collection_query_call, bind, emit. cbn [store extend log fst snd].
  destruct (collection_query E (store w) (query request) (n_results request))
    as [r|]; [|by rewrite <- app_assoc].
  case_bool_decide; [by rewrite <- app_assoc|].
  rewrite summarize_run_events. unfold of_option, ret, raise.
  unfold extend. cbn [store log]. rewrite <- !app_assoc.
  by destruct (validate_metadatas (qr_metadatas r)).
Qed.

(** Searching never changes the collection, whatever the outcome. *)
Theorem search_keeps_collection (E : env) (request : QueryRequest)
    (w : world) :
  store (snd (search_documents E request w)) = store w.
Proof.
  rewrite search_run. cbv zeta.
  repeat match goal with
         | |- context [if ?b then _ else _] => destruct b
         | |- context [match ?o with Some _ => _ | None => _ end] =>
             destruct o
         end; done.
Qed.

(** One search makes at most one relevance question to the model, at most
    one query to the vector store, and at most one summary request, in that
    order, and nothing else. *)
Theorem search_calls (E : env) (request : QueryRequest) (w : world) :
  exists evs,
    log (snd (search_documents E request w)) = log w ++ evs
    /\ search_trace (query request) (n_results request) evs.
Proof.
  rewrite search_run. cbv zeta.
  set (q := query request). set (n := n_results request).
  assert (Ha : relevance_events q = []
               \/ relevance_events q = [LlmCall (RelevancePrompt q)]).
  { unfold relevance_events. destruct (relevance_shortcut q); auto. }
  assert (Hnone : search_trace q n (relevance_events q)).
  { exists (relevance_events q), []. by rewrite app_nil_r; auto. }
  assert (Hq : search_trace q n (relevance_events q ++ [StoreQuery q n])).
  { exists (relevance_events q), [StoreQuery q n]. auto. }
  destruct (negb _); [by eexists|].
  destruct (search_shortcut q); [by eexists|].
  destruct (collection_query E (store w) q n) as [r|]; [|by eexists].
  case_bool_decide; [by eexists|].
  assert (Hs : search_trace q n
                 (relevance_events q ++ [StoreQuery q n]
                  ++ summary_events q (qr_documents r))).
  { unfold summary_events.
    destruct (route_of q); rewrite ?app_nil_r; try done.
    destruct (no_documents _); rewrite ?app_nil_r; [done|].
    exists (relevance_events q), [StoreQuery q n;
                                  LlmCall (summary_prompt q (qr_documents r))].
    split; [done|]. split; [done|]. right; right. by eexists. }
  destruct (validate_metadatas _); by eexists.
Qed.

End SearchMore.

Module SearchCases.

Import Props MoreProps Samples MoreSamples TextFacts MatcherFacts RouterFacts.
Import Endpoint SearchMore.

Lemma relevance_shortcut_spec (q : str) :
  relevance_shortcut q = true
  <-> greets (normalize q) Relevance.greeting_patterns
      \/ mentions (normalize q) Relevance.contextual_patterns.
Proof.
  unfold relevance_shortcut.
  by rewrite orb_true_iff, phrase_match_spec, any_in_spec.
Qed.

Lemma search_shortcut_spec (q : str) :
  search_shortcut q = true
  <-> greets (normalize q) greeting_patterns
      \/ mentions (normalize q) age_patterns.
Proof.
  unfold search_shortcut.
  by rewrite orb_true_iff, phrase_match_spec, any_in_spec.
Qed.

Lemma relevance_phrases_in_search (g : str) :
  In g Relevance.greeting_patterns -> In g greeting_patterns.
Proof.
  change greeting_patterns
    with (Relevance.greeting_patterns ++ [lit "alright"; lit "got it"]).
  intros H. apply in_or_app. by left.
Qed.

Lemma age_patterns_contextual (p : str) :
  In p age_patterns -> In p Relevance.contextual_patterns.
Proof.
  change Relevance.contextual_patterns
    with (age_patterns
          ++ map lit ["so what"; "and what"; "tell me more"; "more info";
                      "more details"; "when was that"; "what year";
                      "which year"; "how many"; "how much"]%string).
  intros H. apply in_or_app. by left.
Qed.

Lemma shortcut_route (q : str) :
  search_shortcut q = true <-> route_of q <> Retrieval.
Proof.
  unfold search_shortcut, route_of.
  rewrite search_patterns_split, !phrase_match_app.
  change age_patterns with Summarize.age_patterns.
  destruct (phrase_match _ Summarize.greeting_patterns),
    (phrase_match _ Summarize.farewell_patterns),
    (phrase_match _ Summarize.acknowledgment_patterns),
    (any_in _ Summarize.age_patterns); simpl; split; intros H; try done.
Qed.

Lemma shortcut_canned (E : env) (q : str) (docs : list str) :
  search_shortcut q = true -> canned E (summary_of E q docs).
Proof.
  intros H. apply shortcut_route in H. unfold canned, summary_of.
  destruct (route_of q); auto. done.
Qed.

(** A query that matches a phrase of the relevance list or an age pattern is
    answered with one of the four fixed texts and without any call to the
    model or to the vector store: the world is left as it was. *)
Theorem pattern_queries_need_no_call (E : env) (request : QueryRequest)
    (w : world) :
  let ql := normalize (query request) in
  greets ql Relevance.greeting_patterns \/ mentions ql age_patterns ->
  exists text,
    search_documents E request w = (Ok (shortcut_response text), w)
    /\ canned E text.
Proof.
  cbv zeta. intros H.
  assert (Hr : relevance_shortcut (query request) = true).
  { apply relevance_shortcut_spec. destruct H as [H | H]; [by left|].
    right. apply any_in_spec. apply any_in_spec in H.
    eapply any_in_mono; [apply age_patterns_contextual | done]. }
  assert (Hs : search_shortcut (query request) = true).
  { apply search_shortcut_spec. destruct H as [H | H]; [|by right].
    left. apply phrase_match_spec. apply phrase_match_spec in H.
    eapply phrase_match_mono; [apply relevance_phrases_in_search | done]. }
  exists (summary_of E (query request) []).
  split; [|by apply shortcut_canned].
  rewrite search_run. cbv zeta. unfold relevant, relevance_events.
  rewrite Hr, Hs. cbn [orb negb]. by rewrite extend_nil.
Qed.

Lemma pattern_queries_need_no_call_witness :
  exists text,
    search_documents (env_model_down None)
      {| query := lit "Thanks"; n_results := 5 |} empty_world
    = (Ok (shortcut_response text), empty_world)
    /\ canned (env_model_down None) text.
Proof.
  apply (pattern_queries_need_no_call (env_model_down None)
           {| query := lit "Thanks"; n_results := 5 |} empty_world).
  left. apply phrase_match_spec. reflexivity.
Defined.

(** Whenever the endpoint skips the vector search, the summarizer has a
    fixed answer: its greeting, farewell and acknowledgment lists together
    are the endpoint's list, so the no-documents safety text is never
    returned on this path. *)
Theorem shortcut_always_has_answer (E : env) (request : QueryRequest)
    (w : world) :
  let ql := normalize (query request) in
  greets ql greeting_patterns \/ mentions ql age_patterns ->
  fst (Relevance.check_query_relevance E (query request) w) = Ok true ->
  exists text,
    fst (search_documents E request w) = Ok (shortcut_response text)
    /\ canned E text.
Proof.
  cbv zeta. intros Hs Hrel. apply search_shortcut_spec in Hs.
  rewrite relevance_run_events in Hrel. injection Hrel as Hrel.
  exists (summary_of E (query request) []).
  split; [|by apply shortcut_canned].
  rewrite search_run. cbv zeta. by rewrite Hrel, Hs.
Qed.

Lemma shortcut_always_has_answer_witness :
  exists text,
    fst (search_documents (env_of (Some (lit "yes")))
           {| query := lit "Alright"; n_results := 5 |} empty_world)
    = Ok (shortcut_response text)
    /\ canned (env_of (Some (lit "yes"))) text.
Proof.
  apply (shortcut_always_has_answer (env_of (Some (lit "yes")))
           {| query := lit "Alright"; n_results := 5 |} empty_world).
  - left. apply phrase_match_spec. reflexivity.
  - reflexivity.
Defined.

(** With the chat model unavailable, a query that goes to retrieval still
    gets its documents: the relevance check lets it through and the summary
    is the fallback text (or the safety text when the first document is
    empty). *)
Theorem search_survives_model_outage (E : env) (request : QueryRequest)
    (w : world) (r : query_result) (ms : list metadata) :
  let q := query request in
  (forall x, llm_complete E x = None) ->
  ~ (greets (normalize q) greeting_patterns
     \/ mentions (normalize q) age_patterns) ->
  collection_query E (store w) q (n_results request) = Some r ->
  qr_documents r <> [] ->
  validate_metadatas (qr_metadatas r) = Some ms ->
  fst (search_documents E request w)
  = Ok (full_response r ms
          (if no_documents (qr_documents r)
           then Summarize.no_documents_reply
           else Summarize.failure_reply)).
Proof.
  cbv zeta. intros Hdown Hs Hq Hdocs Hms.
  rewrite <- search_shortcut_spec in Hs. apply not_true_is_false in Hs.
  assert (Hroute : route_of (query request) = Retrieval).
  { destruct (route_of (query request)) eqn:Hr; try done;
      (assert (Hne : route_of (query request) <> Retrieval) by congruence;
       apply shortcut_route in Hne; congruence). }
  rewrite search_run. cbv zeta. unfold relevant.
  rewrite Hdown, Hs, Hq, Hms. cbn [verdict negb]. rewrite orb_true_r.
  cbn [negb]. rewrite bool_decide_eq_false_2 by done. cbn [fst].
  unfold summary_of. rewrite Hroute, Hdown. done.
Qed.

Lemma search_survives_model_outage_witness :
  fst (search_documents (env_model_down (Some one_hit)) albums_request
         empty_world)
  = Ok (full_response one_hit [∅] Summarize.failure_reply).
Proof.
  apply (search_survives_model_outage (env_model_down (Some one_hit))
           albums_request empty_world one_hit [∅]).
  - done.
  - rewrite <- search_shortcut_spec. by vm_compute.
  - done.
  - done.
  - done.
Defined.

(** When the vector store fails on a query that reached it, the endpoint
    raises an HTTP 400 error. *)
Theorem search_store_failure (E : env) (request : QueryRequest) (w : world) :
  let q := query request in
  fst (Relevance.check_query_relevance E q w) = Ok true ->
  ~ (greets (normalize q) greeting_patterns
     \/ mentions (normalize q) age_patterns) ->
  collection_query E (store w) q (n_results request) = None ->
  fst (search_documents E request w) = Raised (HTTPException 400 StoreError).
Proof.
  cbv zeta. intros Hrel Hs Hq.
  rewrite <- search_shortcut_spec in Hs. apply not_true_is_false in Hs.
  rewrite relevance_run_events in Hrel. injection Hrel as Hrel.
  rewrite search_run. cbv zeta. by rewrite Hrel, Hs, Hq.
Qed.

Lemma search_store_failure_witness :
  fst (search_documents (env_model_down None) albums_request empty_world)
  = Raised (HTTPException 400 StoreError).
Proof.
  apply (search_store_failure (env_model_down None) albums_request
           empty_world).
  - done.
  - rewrite <- search_shortcut_spec. by vm_compute.
  - done.
Defined.

(** A query is turned away only after the model was asked and answered
    something that is not YES once trimmed and upper-cased; the response then
    carries the explanation, no summary, and the vector store is not
    queried. *)
Theorem search_turns_away (E : env) (request : QueryRequest) (w : world) :
  let q := query request in
  fst (Relevance.check_query_relevance E q w) = Ok false ->
  search_documents E request w
  = (Ok not_relevant_response, logged w (LlmCall (RelevancePrompt q)))
  /\ exists reply,
       llm_complete E (RelevancePrompt q) = Some reply
       /\ upper (strip reply) <> lit "YES".
Proof.
  cbv zeta. intros Hrel.
  rewrite relevance_run_events in Hrel. injection Hrel as Hrel.
  pose proof Hrel as Hv. unfold relevant in Hv.
  apply orb_false_iff in Hv as [Hs Hv]. split.
  - rewrite search_run. cbv zeta. rewrite Hrel. unfold relevance_events.
    by rewrite Hs.
  - destruct (llm_complete E _) as [reply|]; [|done].
    exists reply. split; [done|]. unfold verdict in Hv. intros Heq.
    apply str_eqb_spec in Heq. congruence.
Qed.

Lemma search_turns_away_witness :
  fst (search_documents (env_of (Some (lit "No.")))
         {| query := lit "How to cook pasta?"; n_results := 5 |} empty_world)
  = Ok not_relevant_response.
Proof.
  rewrite (proj1 (search_turns_away (env_of (Some (lit "No.")))
             {| query := lit "How to cook pasta?"; n_results := 5 |}
             empty_world eq_refl)).
  reflexivity.
Defined.

(** When the vector store finds nothing, the endpoint answers with the fixed
    "couldn't find" text and does not ask the model for a summary. *)
Theorem search_finds_nothing (E : env) (request : QueryRequest) (w : world)
    (r : query_result) :
  let q := query request in
  fst (Relevance.check_query_relevance E q w) = Ok true ->
  ~ (greets (normalize q) greeting_patterns
     \/ mentions (normalize q) age_patterns) ->
  collection_query E (store w) q (n_results request) = Some r ->
  qr_documents r = [] ->
  search_documents E request w
  = (Ok nothing_found_response,
     extend w (relevance_events q ++ [StoreQuery q (n_results request)])).
Proof.
  cbv zeta. intros Hrel Hs Hq Hdocs.
  rewrite <- search_shortcut_spec in Hs. apply not_true_is_false in Hs.
  rewrite relevance_run_events in Hrel. injection Hrel as Hrel.
  rewrite search_run. cbv zeta. rewrite Hrel, Hs, Hq. cbn [negb].
  by rewrite bool_decide_eq_true_2.
Qed.

Lemma search_finds_nothing_witness :
  fst (search_documents
         (env_model_down (Some {| qr_documents := []; qr_metadatas := [];
                                  qr_distances := []; qr_ids := [] |}))
         albums_request empty_world)
  = Ok nothing_found_response.
Proof.
  rewrite (search_finds_nothing
             (env_model_down (Some {| qr_documents := []; qr_metadatas := [];
                                      qr_distances := []; qr_ids := [] |}))
             albums_request empty_world
             {| qr_documents := []; qr_metadatas := [];
                qr_distances := []; qr_ids := [] |}); try done.
  rewrite <- search_shortcut_spec. by vm_compute.
Defined.

(** The summarizer reads the first three documents only: two lists that
    agree on their first three entries get the same answer and make the same
    call. *)
Theorem summarize_reads_top_three (E : env) (q : str)
    (docs docs' : list str) (w : world) :
  take 3 docs = take 3 docs' ->
  Summarize.summarize_search_results E q docs w
  = Summarize.summarize_search_results E q docs' w.
Proof.
  intros H. rewrite !summarize_run.
  assert (Hn : no_documents docs = no_documents docs').
  { destruct docs, docs'; simpl in *; congruence. }
  unfold summary_prompt. by rewrite Hn, H.
Qed.

Lemma summarize_reads_top_three_witness :
  Summarize.summarize_search_results (env_of (Some (lit "ok")))
    (lit "List his albums") [lit "a"; lit "b"; lit "c"; lit "d"] empty_world
  = Summarize.summarize_search_results (env_of (Some (lit "ok")))
      (lit "List his albums") [lit "a"; lit "b"; lit "c"] empty_world.
Proof.
  apply (summarize_reads_top_three (env_of (Some (lit "ok")))
           (lit "List his albums")). reflexivity.
Defined.

End SearchCases.

(** ** More on ingestion and startup *)

Module IngestMore.

Import Props MoreProps Samples MoreSamples RouterFacts Ingest IngestClaims.

Lemma to_int_not_nil (z : Z) (d : Decimal.int) :
  Z.of_int d = 0%Z -> d <> Decimal.Pos (Decimal.D0 Decimal.Nil) ->
  Z.to_int z <> d.
Proof.
  intros Hd Hne H. pose proof (f_equal Z.of_int H) as H'.
  rewrite DecimalZ.of_to, Hd in H'. subst z. simpl in H. congruence.
Qed.

Lemma of_Z_inj (a b : Z) : of_Z a = of_Z b -> a = b.
Proof.
  unfold of_Z. intros H.
  apply (f_equal string_of_list_ascii) in H.
  rewrite !string_of_list_ascii_of_string in H.
  apply (f_equal NilZero.int_of_string) in H.
  rewrite !NilZero.isi in H by (by apply to_int_not_nil).
  injection H as H.
  apply (f_equal Z.of_int) in H. by rewrite !DecimalZ.of_to in H.
Qed.

Lemma chunk_id_inj (i j : nat) : chunk_id i = chunk_id j -> i = j.
Proof.
  unfold chunk_id, of_nat. intros H.
  apply app_inv_head, app_inv_head, of_Z_inj in H. lia.
Qed.

Lemma with_chunks_other (base : metadata) (total : nat) (chunks : list str) :
  forall i s id,
    (forall k, k < length chunks -> id <> chunk_id (i + k)) ->
    with_chunks base total i chunks s !! id = s !! id.
Proof.
  induction chunks as [|c rest IH]; intros i s id Hid; simpl; [done|].
  rewrite IH.
  - apply lookup_insert_ne. intros Heq. apply (Hid 0); [simpl; lia|].
    by rewrite Nat.add_0_r.
  - intros k Hk. replace (S i + k) with (i + S k) by lia.
    apply Hid. simpl. lia.
Qed.

Lemma with_chunks_lookup (base : metadata) (total : nat) (chunks : list str) :
  forall i s k chunk,
    chunks !! k = Some chunk ->
    with_chunks base total i chunks s !! chunk_id (i + k)
    = Some (chunk_record base total (i + k) chunk).
Proof.
  induction chunks as [|c rest IH]; intros i s k chunk; [done|].
  destruct k as [|k]; simpl.
  - intros [= ->]. rewrite Nat.add_0_r, with_chunks_other.
    + apply lookup_insert_eq.
    + intros k _ Heq. apply chunk_id_inj in Heq. lia.
  - intros Hk. replace (i + S k) with (S i + k) by lia. by apply IH.
Qed.

Lemma with_chunks_size (base : metadata) (total : nat) (chunks : list str) :
  forall i s,
    (forall j, i <= j -> s !! chunk_id j = None) ->
    size (with_chunks base total i chunks s) = size s + length chunks.
Proof.
  induction chunks as [|c rest IH]; intros i s Hs; simpl; [lia|].
  rewrite IH.
  - rewrite map_size_insert_None by (by apply Hs). lia.
  - intros j Hj. rewrite lookup_insert_ne; [apply Hs; lia|].
    intros Heq. apply chunk_id_inj in Heq. lia.
Qed.

Lemma add_chunks_fresh (E : env) (base : metadata) (total : nat)
    (chunks : list str) :
  forall i w,
    (forall j, i <= j -> store w !! chunk_id j = None) ->
    exists w',
      add_chunks E base total i chunks w = (Ok tt, w')
      /\ store w' = with_chunks base total i chunks (store w).
Proof.
  induction chunks as [|c rest IH]; intros i w Hw; simpl.
  - by eexists.
  - unfold bind at 1. rewrite collection_add_run, Hw by done.
    destruct (IH (S i) (put (chunk_id i) c (chunk_metadata base i total) w))
      as (w' & Hrun & Hst).
    + intros j Hj. simpl. rewrite lookup_insert_ne; [apply Hw; lia|].
      intros Heq. apply chunk_id_inj in Heq. lia.
    + exists w'. split; [done|]. rewrite Hst. done.
Qed.

(** The first ingestion: on a collection that holds neither the document
    nor any chunk id, a successful scrape is stored completely.  The full
    text is under the document id, chunk number [i] is under
    [sai_sai_kham_leng_wiki_chunk_i] with its index and the chunk count in
    its metadata, every other record is as before, and the collection has
    grown by the number of chunks plus one. *)
Theorem first_ingestion (E : env) (w : world) (wiki : wiki_data) :
  let chunks := Chunker.chunk_content (wd_content wiki) in
  scrape_wikipedia_page E wikipedia_url = Some wiki ->
  store w !! document_id = None ->
  (forall i, store w !! chunk_id i = None) ->
  exists w',
    check_and_ingest_wikipedia E w = (Ok tt, w')
    /\ store w' !! document_id
       = Some {| st_document := wd_content wiki;
                 st_metadata := wd_metadata wiki |}
    /\ (forall i chunk,
          chunks !! i = Some chunk ->
          store w' !! chunk_id i
          = Some {| st_document := chunk;
                    st_metadata :=
                      chunk_metadata (wd_metadata wiki) i (length chunks) |})
    /\ (forall id,
          id <> document_id ->
          (forall i, i < length chunks -> id <> chunk_id i) ->
          store w' !! id = store w !! id)
    /\ size (store w') = size (store w) + length chunks + 1.
Proof.
  cbv zeta. intros Hs Hd Hc.
  rewrite (ingest_absent E w Hd). cbv zeta. rewrite Hs.
  set (chunks := Chunker.chunk_content (wd_content wiki)).
  set (w1 := logged _ _).
  destruct (add_chunks_fresh E (wd_metadata wiki) (length chunks) chunks 0 w1)
    as (w2 & -> & Hw2); [intros j _; apply Hc|].
  assert (Hd2 : store w2 !! document_id = None).
  { rewrite Hw2, with_chunks_other; [done|].
    intros k _ Heq. symmetry in Heq. by apply chunk_id_not_document in Heq. }
  rewrite collection_add_run, Hd2. eexists. split; [done|].
  cbn [store put]. rewrite Hw2. split; [apply lookup_insert_eq|]. split.
  { intros i chunk Hi. rewrite lookup_insert_ne.
    - by apply (with_chunks_lookup _ _ chunks 0 _ i chunk).
    - intros Heq. symmetry in Heq. by apply chunk_id_not_document in Heq. }
  split.
  { intros id Hne Hid. rewrite lookup_insert_ne by done.
    by apply with_chunks_other. }
  rewrite map_size_insert_None by (by rewrite <- Hw2).
  rewrite with_chunks_size by (intros j _; apply Hc). simpl. lia.
Qed.

Lemma first_ingestion_witness :
  exists w',
    check_and_ingest_wikipedia (env_scraping (Some small_wiki) true)
      empty_world = (Ok tt, w')
    /\ size (store w') = 2.
Proof.
  destruct (first_ingestion (env_scraping (Some small_wiki) true) empty_world
              small_wiki) as (w' & Hrun & _ & _ & _ & Hsize); try done.
  exists w'. split; [done|]. rewrite Hsize. reflexivity.
Defined.

Lemma add_chunks_preserves (E : env) (base : metadata) (total : nat)
    (chunks : list str) :
  forall i w id x,
    store w !! id = Some x ->
    store (snd (add_chunks E base total i chunks w)) !! id = Some x.
Proof.
  induction chunks as [|c rest IH]; intros i w id x Hx; simpl; [done|].
  unfold bind at 1. rewrite collection_add_run.
  destruct (store w !! chunk_id i) as [old|] eqn:Hold.
  - destruct (add_existing_raises E); [done|]. by apply IH.
  - apply IH. simpl. rewrite lookup_insert_ne; [done|]. congruence.
Qed.

(** Ingestion never overwrites or removes a record: whatever is in the
    collection before a run is there, unchanged, after it, also when the run
    fails. *)
Theorem ingest_keeps_records (E : env) (w : world) (id : str) (x : stored) :
  store w !! id = Some x ->
  store (snd (check_and_ingest_wikipedia E w)) !! id = Some x.
Proof.
  intros Hx. destruct (store w !! document_id) as [d|] eqn:Hd.
  { rewrite ingest_present by (by exists d). done. }
  rewrite (ingest_absent E w Hd). cbv zeta.
  destruct (scrape_wikipedia_page E wikipedia_url) as [wiki|]; [|done].
  match goal with
  | |- context [add_chunks E ?b ?t 0 ?cs ?v] =>
      pose proof (add_chunks_preserves E b t cs 0 v id x Hx) as Hk;
        destruct (add_chunks E b t 0 cs v) as [[[]|e] w2]
  end; [|done].
  cbn [snd] in Hk. rewrite collection_add_run.
  destruct (store w2 !! document_id) as [old|] eqn:Hold.
  - by destruct (add_existing_raises E).
  - cbn [snd store put]. rewrite lookup_insert_ne; [done|]. congruence.
Qed.

Lemma ingest_keeps_records_witness :
  store (snd (check_and_ingest_wikipedia (env_scraping (Some small_wiki) true)
                {| store := {[ chunk_id 1 := {| st_document := lit "mine";
                                                st_metadata := ∅ |} ]};
                   log := [] |})) !! chunk_id 1
  = Some {| st_document := lit "mine"; st_metadata := ∅ |}.
Proof.
  apply (ingest_keeps_records (env_scraping (Some small_wiki) true)).
  simpl. apply lookup_singleton_eq.
Defined.

(** When the page cannot be fetched, ingestion raises the scraper's error
    and the collection is as before. *)
Theorem ingest_scrape_failure (E : env) (w : world) :
  store w !! document_id = None ->
  scrape_wikipedia_page E wikipedia_url = None ->
  fst (check_and_ingest_wikipedia E w) = Raised ScrapeError
  /\ store (snd (check_and_ingest_wikipedia E w)) = store w.
Proof.
  intros Hd Hs. rewrite (ingest_absent E w Hd). cbv zeta. by rewrite Hs.
Qed.

Lemma ingest_scrape_failure_witness :
  fst (check_and_ingest_wikipedia (env_scraping None false) empty_world)
  = Raised ScrapeError
  /\ store (snd (check_and_ingest_wikipedia (env_scraping None false)
                   empty_world)) = store empty_world.
Proof.
  apply (ingest_scrape_failure (env_scraping None false) empty_world); done.
Defined.

(** The metadata stored with a chunk keeps the four fields of the page
    (source, url, title, infobox flag) and adds the chunk's index, the chunk
    count and the chunk id. *)
Theorem chunk_metadata_fields (url title : str) (infobox : bool)
    (i total : nat) :
  let m := chunk_metadata (Scraper.page_metadata url title infobox) i total in
  m !! lit "source" = Some (MStr (lit "wikipedia"))
  /\ m !! lit "url" = Some (MStr url)
  /\ m !! lit "title" = Some (MStr title)
  /\ m !! lit "has_infobox" = Some (MBool infobox)
  /\ m !! lit "chunk_index" = Some (MInt (Z.of_nat i))
  /\ m !! lit "total_chunks" = Some (MInt (Z.of_nat total))
  /\ m !! lit "chunk_id" = Some (MStr (chunk_id i)).
Proof.
  cbv zeta. unfold chunk_metadata, Scraper.page_metadata.
  repeat split;
    repeat (rewrite lookup_insert_eq
            || rewrite lookup_insert_ne by (vm_compute; discriminate));
    done.
Qed.

(** Startup never raises: a failed ingestion is swallowed, and the world is
    the one ingestion left. *)
Theorem startup_never_raises (E : env) (w : world) :
  Startup.startup_event E w
  = (Ok tt, snd (check_and_ingest_wikipedia E w)).
Proof.
  unfold Startup.startup_event, try_catch, bind, ret.
  by destruct (check_and_ingest_wikipedia E w) as [[[]|e] w'].
Qed.

End IngestMore.

(** ** The document endpoints *)

Module DocumentsFacts.

Import Props MoreProps Samples MoreSamples RouterFacts IngestClaims Documents.

Lemma get_document_run (document_id : str) (w : world) :
  get_document document_id w
  = match store w !! document_id with
    | Some r =>
        (Returned {| view_id := document_id; view_content := st_document r;
                     view_metadata := st_metadata r |},
         logged w (StoreGet document_id))
    | None => (Failed missing_document_error, logged w (StoreGet document_id))
    end.
Proof.
  unfold get_document, api_try, api_bind, client, collection_get_record.
  unfold bind, emit, logged. simpl.
  by destruct (store w !! document_id).
Qed.

Lemma add_document_run (E : env) (document : Document) (w : world) :
  add_document E document w
  = match store w !! doc_id document with
    | Some _ =>
        if add_existing_raises E
        then (Failed (HTTPError 400 (StrOf (ClientError StoreError))),
              logged w (StoreAdd (doc_id document)))
        else (Returned (added_message (doc_id document)),
              logged w (StoreAdd (doc_id document)))
    | None =>
        (Returned (added_message (doc_id document)),
         put (doc_id document) (doc_content document)
           (default ∅ (doc_metadata document)) w)
    end.
Proof.
  unfold add_document, api_try, api_bind, client.
  rewrite collection_add_run.
  destruct (store w !! doc_id document); [|done].
  by destruct (add_existing_raises E).
Qed.

Lemma delete_document_run (document_id : str) (w : world) :
  delete_document document_id w
  = (Returned (deleted_message document_id),
     {| store := delete document_id (store w); log := log w |}).
Proof. reflexivity. Qed.

(** Asking for a document that is not in the collection fails with status
    400, not 404: the 404 raised inside the [try] is caught by the handler
    for every exception and raised again as a 400.  Whenever [get_document]
    fails at all, the status is 400. *)
Theorem get_document_missing (document_id : str) (w : world) :
  (store w !! document_id = None ->
   fst (get_document document_id w) = Failed missing_document_error)
  /\ (forall e,
        fst (get_document document_id w) = Failed e ->
        exists detail, e = HTTPError 400 detail).
Proof.
  rewrite get_document_run. split.
  - by intros ->.
  - intros e. destruct (store w !! document_id); [done|].
    intros [= <-]. by eexists.
Qed.

Lemma get_document_missing_witness :
  fst (get_document (lit "no_such_doc") empty_world)
  = Failed missing_document_error.
Proof.
  apply (proj1 (get_document_missing (lit "no_such_doc") empty_world)).
  reflexivity.
Defined.

(** A document with an id and metadata that the collection client accepts,
    added under a new id, can be read back: the addition succeeds and
    [get_document] returns the same id and content. *)
Theorem add_then_get (E : env) (document : Document) (w : world) :
  accepted document ->
  store w !! doc_id document = None ->
  fst (add_document E document w)
  = Returned (added_message (doc_id document))
  /\ exists view,
       fst (get_document (doc_id document) (snd (add_document E document w)))
       = Returned view
       /\ view_id view = doc_id document
       /\ view_content view = doc_content document.
Proof.
  intros _ H. rewrite add_document_run, H. split; [done|].
  rewrite get_document_run. cbn [snd store put].
  rewrite lookup_insert_eq. by eexists.
Qed.

Lemma add_then_get_witness :
  fst (add_document (env_of None) test_document empty_world)
  = Returned (added_message (lit "test_doc_1"))
  /\ exists view,
       fst (get_document (lit "test_doc_1")
              (snd (add_document (env_of None) test_document empty_world)))
       = Returned view
       /\ view_id view = lit "test_doc_1"
       /\ view_content view = doc_content test_document.
Proof.
  apply (add_then_get (env_of None) test_document empty_world).
  - split; [discriminate | apply insert_non_empty].
  - reflexivity.
Defined.



(** Deleting always reports success, also for an id that is not there;
    afterwards the id cannot be read any more, and every other document is
    read as before. *)
Theorem delete_then_get (document_id other : str) (w : world) :
  other <> document_id ->
  fst (delete_document document_id w)
  = Returned (deleted_message document_id)
  /\ fst (get_document document_id (snd (delete_document document_id w)))
     = Failed missing_document_error
  /\ fst (get_document other (snd (delete_document document_id w)))
     = fst (get_document other w).
Proof.
  intros Hne. rewrite delete_document_run. cbn [fst snd].
  split; [done|]. rewrite !get_document_run. cbn [store].
  rewrite lookup_delete_eq. split; [done|].
  rewrite lookup_delete_ne by done. by destruct (store w !! other).
Qed.

Lemma delete_then_get_witness :
  fst (get_document (lit "test_doc_1")
         (snd (delete_document (lit "test_doc_1") world_with_test_doc)))
  = Failed missing_document_error.
Proof.
  apply (delete_then_get (lit "test_doc_1") (lit "another") world_with_test_doc).
  discriminate.
Defined.

(** The document count of [get_collection_info] follows the endpoints: it
    grows by one when a document that the collection client accepts is added
    under a new id, and shrinks by one when a stored document is deleted. *)
Theorem count_follows_documents (E : env) (document : Document)
    (document_id : str) (w : world) :
  (accepted document ->
   store w !! doc_id document = None ->
   fst (get_collection_info (snd (add_document E document w)))
   = Returned (collection_name, S (size (store w))))
  /\ (is_Some (store w !! document_id) ->
      fst (get_collection_info (snd (delete_document document_id w)))
      = Returned (collection_name, pred (size (store w)))).
Proof.
  unfold get_collection_info, api_try, api_bind, client, collection_count.
  split.
  - intros _ H. rewrite add_document_run, H. cbn [fst snd store put].
    by rewrite map_size_insert_None.
  - intros [r Hr]. rewrite delete_document_run. cbn [fst snd store].
    by rewrite map_size_delete_Some by (by exists r).
Qed.

Lemma count_follows_documents_witness :
  fst (get_collection_info
         (snd (add_document (env_of None) test_document empty_world)))
  = Returned (collection_name, 1).
Proof.
  apply (proj1 (count_follows_documents (env_of None) test_document
                  (lit "test_doc_1") empty_world)).
  - split; [discriminate | apply insert_non_empty].
  - reflexivity.
Defined.

End DocumentsFacts.

(** ** The age computation *)

Module AgeFacts.

Import Props MoreProps.

(** The computed age counts the birthdays reached: the current date is not
    before the birthday of that number and is before the next one. *)
Theorem age_counts_birthdays (today : date) :
  ~ before today (birthday (Summarize.age_on today))
  /\ before today (birthday (Summarize.age_on today + 1)).
Proof.
  unfold before, birthday, Summarize.age_on. simpl.
  destruct (Z.ltb_spec (month today) 4); simpl; [lia|].
  destruct (Z.eqb_spec (month today) 4); simpl; [|lia].
  destruct (Z.ltb_spec (day today) 10); lia.
Qed.

End AgeFacts.

(** ** Letter case and whitespace padding *)

Module WideFacts.

Import Props.

Lemma inj_app (a b : str) : Wide.inj (a ++ b) = Wide.inj a ++ Wide.inj b.
Proof. apply map_app. Qed.

Lemma inj_rev (s : str) : Wide.inj (rev s) = rev (Wide.inj s).
Proof. apply map_rev. Qed.

Lemma wide_lower_inj (s : str) : Wide.lower (Wide.inj s) = Wide.inj (lower s).
Proof. unfold Wide.lower, Wide.inj, lower. by rewrite !map_map. Qed.

Lemma wide_lstrip_inj (s : str) :
  Wide.lstrip (Wide.inj s) = Wide.inj (lstrip s).
Proof.
  induction s as [|c s IH]; [done|]. simpl. by destruct (is_space c).
Qed.

Lemma wide_strip_inj (s : str) : Wide.strip (Wide.inj s) = Wide.inj (strip s).
Proof.
  unfold Wide.strip, Wide.rstrip, strip, rstrip.
  by rewrite wide_lstrip_inj, <- inj_rev, wide_lstrip_inj, <- inj_rev.
Qed.

Lemma wide_normalize_inj (q : str) :
  Wide.normalize (Wide.inj q) = Wide.inj (normalize q).
Proof.
  unfold Wide.normalize, normalize. by rewrite wide_lower_inj, wide_strip_inj.
Qed.

Lemma wide_str_eqb_inj (a b : str) :
  Wide.str_eqb (Wide.inj a) (Wide.inj b) = str_eqb a b.
Proof.
  revert b. induction a as [|x a IH]; intros [|y b]; simpl; [done..|].
  by rewrite IH.
Qed.

Lemma wide_startswith_inj (s p : str) :
  Wide.startswith (Wide.inj s) (Wide.inj p) = startswith s p.
Proof.
  revert s. induction p as [|x p IH]; intros [|y s]; simpl; [done..|].
  by rewrite IH.
Qed.

Lemma wide_endswith_inj (s p : str) :
  Wide.endswith (Wide.inj s) (Wide.inj p) = endswith s p.
Proof.
  unfold Wide.endswith, endswith. by rewrite <- !inj_rev, wide_startswith_inj.
Qed.

Lemma wide_contains_inj (s p : str) :
  Wide.contains (Wide.inj s) (Wide.inj p) = contains s p.
Proof.
  induction s as [|c s IH].
  - pose proof (wide_startswith_inj [] p) as H. simpl in *. by rewrite H.
  - pose proof (wide_startswith_inj (c :: s) p) as H. simpl in *.
    by rewrite H, IH.
Qed.

Lemma existsb_map_inj (f : Wide.ustr -> bool) (g : str -> bool)
    (ps : list str) :
  (forall p, f (Wide.inj p) = g p) ->
  existsb f (map Wide.inj ps) = existsb g ps.
Proof.
  intros H. induction ps as [|p ps IH]; simpl; [done|]. by rewrite H, IH.
Qed.

Lemma wide_phrase_match_inj (q : str) (ps : list str) :
  Wide.phrase_match (Wide.inj q) (map Wide.inj ps) = phrase_match q ps.
Proof.
  unfold Wide.phrase_match, phrase_match, Wide.mem, mem. f_equal.
  - apply existsb_map_inj. intros p. apply wide_str_eqb_inj.
  - apply existsb_map_inj. intros p.
    change (Wide.inj p ++ [Wide.L1 space]) with (Wide.inj p ++ Wide.inj [space]).
    change (Wide.L1 space :: Wide.inj p) with (Wide.inj (space :: p)).
    by rewrite <- inj_app, wide_startswith_inj, wide_endswith_inj,
      wide_str_eqb_inj.
Qed.

Lemma wide_any_in_inj (q : str) (ps : list str) :
  Wide.any_in (Wide.inj q) (map Wide.inj ps) = any_in q ps.
Proof.
  unfold Wide.any_in, any_in. apply existsb_map_inj.
  intros p. apply wide_contains_inj.
Qed.

(** On Latin-1 queries the wider model takes the decisions of the main
    model. *)
Lemma wide_routing_inj (q : str) : Wide.routing (Wide.inj q) = routing q.
Proof.
  unfold Wide.routing, routing, Wide.relevance_shortcut, relevance_shortcut,
    Wide.route_of, route_of, Wide.search_shortcut, search_shortcut.
  by rewrite wide_normalize_inj, !wide_phrase_match_inj, !wide_any_in_inj.
Qed.

End WideFacts.

Module CaseClaims.

Import Props MoreProps CaseProps Samples TextFacts MatcherFacts RouterFacts.
Import SearchMore.









End CaseClaims.
